(** * har-lolicode-prototype-v2: the web front end's core, embedded in Rocq

    A shallow embedding of the pure and state-passing parts of
    - [components/upload/HARUploader.tsx]      (HAR normalisation),
    - [DependencyGraph.tsx]                    (edge list, entry labels),
    - [RequestDataTable.tsx]                   (dependency count),
    - [components/generator/LoliCodeCustomizer.tsx] (generation config),
    followed by the properties of these functions.

    Conventions.  JavaScript numbers that the code uses as indices, counts,
    seconds and sizes are modelled by [Z] plus a separate [NaN]; fractional
    values and the rounding of doubles beyond 2^53 are outside the model.
    Strings are sequences of code units below 256.  A JavaScript exception
    is a [Throw] in the [result] monad; [try ... catch] is [try_catch]. *)

From Stdlib Require Import ZArith List String Ascii Bool Sorted Lia.
From stdpp Require Import list strings pretty sorting.

Local Open Scope string_scope.
Local Open Scope list_scope.
Set Warnings "-register-all".
Set Default Proof Using "Type".

(* ===================================================================== *)
(** * Part I: definitions                                                 *)
(* ===================================================================== *)

(** ** JavaScript values and primitives used by the components *)

Module Js.

(** Numbers: [NaN] or an integer. *)
Inductive number : Type :=
| NaN
| Num (z : Z).

(** ToBoolean on numbers: [NaN], [0] and [-0] are falsy. *)
Definition number_truthy (n : number) : bool :=
  match n with
  | NaN => false
  | Num z => negb (z =? 0)%Z
  end.

(** [a || b] on numbers. *)
Definition or_else (a b : number) : number :=
  if number_truthy a then a else b.

(** [Math.max(a, b)]: [NaN] if either argument is [NaN]. *)
Definition Math_max (a b : number) : number :=
  match a, b with
  | Num x, Num y => Num (Z.max x y)
  | _, _ => NaN
  end.

(** [c === 1] for a number [c]. *)
Definition strict_eq_one (c : number) : bool :=
  match c with
  | Num z => (z =? 1)%Z
  | NaN => false
  end.

(** [Number.MAX_SAFE_INTEGER], 2^53 - 1. *)
Definition MAX_SAFE_INTEGER : Z := 9007199254740991.

(** The text [String(n)] that a number input shows for its value.  Up
    to [MAX_SAFE_INTEGER] in magnitude an integer is printed by its
    decimal digits.  Beyond that a double is printed by its shortest
    digits, and from 1e21 on in exponent form ("1e+21"): these are not
    modelled, and the answer is [None]. *)
Definition number_to_string (n : number) : option string :=
  match n with
  | NaN => Some "NaN"
  | Num z =>
      if (Z.abs z <=? MAX_SAFE_INTEGER)%Z then Some (pretty z) else None
  end.

(** *** [parseInt(string)] with the radix left out *)

(** StrWhiteSpaceChar among the code units below 256: TAB, LF, VT, FF,
    CR, SP and NBSP. *)
Definition is_whitespace (c : ascii) : bool :=
  let n := nat_of_ascii c in
  (((9 <=? n) && (n <=? 13)) || (n =? 32) || (n =? 160))%nat.

Fixpoint trim_start (s : string) : string :=
  match s with
  | String c r => if is_whitespace c then trim_start r else s
  | EmptyString => s
  end.

(** Value of a digit character: 0-9, a-z and A-Z count up to 35. *)
Definition digit_value (c : ascii) : option Z :=
  let n := nat_of_ascii c in
  if ((48 <=? n) && (n <=? 57))%nat then Some (Z.of_nat (n - 48))
  else if ((97 <=? n) && (n <=? 122))%nat then Some (Z.of_nat (n - 87))
  else if ((65 <=? n) && (n <=? 90))%nat then Some (Z.of_nat (n - 55))
  else None.

(** The longest prefix of radix-[radix] digits, read as an integer;
    [acc] is [None] as long as no digit has been seen. *)
Fixpoint digits_prefix (radix : Z) (s : string) (acc : option Z) : option Z :=
  match s with
  | String c r =>
      match digit_value c with
      | Some d =>
          if (d <? radix)%Z
          then digits_prefix radix r (Some (radix * default 0%Z acc + d)%Z)
          else acc
      | None => acc
      end
  | EmptyString => acc
  end.

Definition parseInt (input : string) : number :=
  let s := trim_start input in
  let '(sign, s) :=
    match s with
    | String "-" r => ((-1)%Z, r)
    | String "+" r => (1%Z, r)
    | _ => (1%Z, s)
    end in
  let '(radix, s) :=
    match s with
    | String "0" (String "x" r) => (16%Z, r)
    | String "0" (String "X" r) => (16%Z, r)
    | _ => (10%Z, s)
    end in
  match digits_prefix radix s None with
  | None => NaN
  | Some m => Num (sign * m)
  end.

(** *** Untyped values, as [JSON.parse] returns them *)

Inductive jsval : Type :=
| VUndefined
| VNull
| VBool (b : bool)
| VNum (n : number)
| VStr (s : string)
| VArr (items : list jsval)
| VObj (props : list (string * jsval))
| VBuiltin (fname : string).

(** ToBoolean. *)
Definition truthy (v : jsval) : bool :=
  match v with
  | VUndefined | VNull => false
  | VBool b => b
  | VNum n => number_truthy n
  | VStr s => negb (String.eqb s "")
  | VArr _ | VObj _ | VBuiltin _ => true
  end.

(** [a || b] on values. *)
Definition or_default (a b : jsval) : jsval :=
  if truthy a then a else b.

(** *** Exceptions *)

Inductive thrown : Type :=
| ErrorObject (ename message : string)
| NonError (v : jsval).

Inductive result (A : Type) : Type :=
| Ok (a : A)
| Throw (e : thrown).
Arguments Ok {A} a.
Arguments Throw {A} e.

Definition bind {A B} (r : result A) (k : A -> result B) : result B :=
  match r with
  | Ok a => k a
  | Throw e => Throw e
  end.

(** [try { body } catch { handler }] *)
Definition try_catch {A} (body : result A) (handler : thrown -> result A)
  : result A :=
  match body with
  | Ok a => Ok a
  | Throw e => handler e
  end.

Definition TypeError {A} (message : string) : result A :=
  Throw (ErrorObject "TypeError" message).

(** [throw new Error(message)] *)
Definition throw_Error {A} (message : string) : result A :=
  Throw (ErrorObject "Error" message).

(** First binding of [k] in an object's own properties. *)
Fixpoint own_property (props : list (string * jsval)) (k : string)
  : option jsval :=
  match props with
  | [] => None
  | (k', v) :: rest => if String.eqb k' k then Some v else own_property rest k
  end.

(** Property read [v.k].  Reading from [null] or [undefined] throws.
    An array answers [entries] and [map] with the built-in methods of
    Array.prototype and [length] with its length; no other inherited
    member is among the keys the components read, so every other miss
    is [undefined]. *)
Definition get (v : jsval) (k : string) : result jsval :=
  match v with
  | VUndefined =>
      TypeError ("Cannot read properties of undefined (reading '" +:+ k +:+ "')")
  | VNull =>
      TypeError ("Cannot read properties of null (reading '" +:+ k +:+ "')")
  | VObj props => Ok (default VUndefined (own_property props k))
  | VArr items =>
      if String.eqb k "entries" then Ok (VBuiltin "Array.prototype.entries")
      else if String.eqb k "map" then Ok (VBuiltin "Array.prototype.map")
      else if String.eqb k "length"
           then Ok (VNum (Num (Z.of_nat (length items))))
      else Ok VUndefined
  | VStr s =>
      if String.eqb k "length"
      then Ok (VNum (Num (Z.of_nat (String.length s))))
      else Ok VUndefined
  | VBool _ | VNum _ | VBuiltin _ => Ok VUndefined
  end.

(** [for (let i = start; ...; i++) body(i)], run for [n] iterations with
    the loop state threaded through. *)
Fixpoint for_loop {St : Type} (n i : nat) (body : nat -> St -> St) (s : St)
  : St :=
  match n with
  | O => s
  | S n' => for_loop n' (S i) body (body i s)
  end.

(** The same traversal by recursion on the array, positions counted
    from [i]; [for_loop] over [length l] with a read [l !! i] in its
    body computes it (lemma [for_loop_lookup]). *)
Fixpoint foldl_idx {A St : Type} (f : nat -> A -> St -> St) (i : nat)
    (l : list A) (s : St) : St :=
  match l with
  | [] => s
  | x :: rest => foldl_idx f (S i) rest (f i x s)
  end.

(** [s.split(sep)] for a one-character separator: never empty. *)
Fixpoint split (sep : ascii) (s : string) : list string :=
  match s with
  | EmptyString => [EmptyString]
  | String c r =>
      if Ascii.eqb c sep then EmptyString :: split sep r
      else match split sep r with
           | h :: t => String c h :: t
           | [] => [String c EmptyString]
           end
  end.

(** [xs.pop() || dflt] on an array of strings. *)
Definition pop_or (xs : list string) (dflt : string) : string :=
  match last xs with
  | Some x => if String.eqb x "" then dflt else x
  | None => dflt
  end.

(** *** The part of [new URL(s)] the components rely on *)

Record URL : Type := mkURL {
  hostname : string;
  pathname : string
}.

(** The URL parser first drops leading C0 controls and spaces ... *)
Fixpoint drop_c0_space (s : string) : string :=
  match s with
  | String c r => if (nat_of_ascii c <=? 32)%nat then drop_c0_space r else s
  | EmptyString => s
  end.

Definition is_alpha (c : ascii) : bool :=
  let n := nat_of_ascii c in
  (((65 <=? n) && (n <=? 90)) || ((97 <=? n) && (n <=? 122)))%nat.

Definition is_scheme_char (c : ascii) : bool :=
  let n := nat_of_ascii c in
  is_alpha c
  || (((48 <=? n) && (n <=? 57)) || (n =? 43) || (n =? 45) || (n =? 46))%nat.

Definition is_tab_or_newline (c : ascii) : bool :=
  let n := nat_of_ascii c in
  ((n =? 9) || (n =? 10) || (n =? 13))%nat.

(** ... ignores tabs and newlines, and reads scheme characters up to
    the first colon. *)
Fixpoint scheme_rest (s : string) : bool :=
  match s with
  | EmptyString => false
  | String c r =>
      if is_tab_or_newline c then scheme_rest r
      else if Ascii.eqb c ":" then true
      else if is_scheme_char c then scheme_rest r
      else false
  end.

(** Whether the input starts with a scheme.  Without a base URL,
    [new URL(s)] throws a TypeError when it does not. *)
Definition has_scheme (s : string) : bool :=
  match drop_c0_space s with
  | String c r => is_alpha c && scheme_rest r
  | EmptyString => false
  end.

(** What is assumed of the platform's parser ([None]: it throws). *)
Definition url_parser_sound (parseURL : string -> option URL) : Prop :=
  forall s, has_scheme s = false -> parseURL s = None.

(** [new URL(s)] *)
Definition new_URL (parseURL : string -> option URL) (s : string)
  : result URL :=
  match parseURL s with
  | Some u => Ok u
  | None => TypeError "Invalid URL"
  end.

End Js.

Export Js.

(** Sequencing of throwing computations, written [x ← c; k]. *)
#[global] Instance result_bind : MBind result := fun A B k r => bind r k.
#[global] Instance result_ret : MRet result := fun A a => Ok a.

(** ** Data shared by the components *)

(** Modelled from the spec: the type [SemanticHarEntry] is declared in the
    package @har2lolicode/parser, not in the web front end.  Of its
    fields (section 3, "request: { method, url, ... }") the components
    below read the request's method and URL. *)
Record SemanticHarEntry : Type := mkEntry {
  entryId : string;
  request_method : string;
  request_url : string
}.

(** Modelled from the spec: [DependencyMatrix] is declared in the package
    @har2lolicode/analyzer: "adjacencyMatrix: number[][], criticalPath:
    number[]" (section 6). *)
Record DependencyMatrix : Type := mkMatrix {
  adjacencyMatrix : list (list number);
  criticalPath : list Z
}.

(** ** DependencyGraph.tsx *)

Module DependencyGraph.

Record DependencyEdge : Type := mkEdge {
  fromIndex : nat;
  toIndex : nat
}.

(** The [dependencies] memo: two nested index loops pushing onto [deps].
    The guard [i < length] keeps the read [m[i]] in range; a read
    [m[i][j]] of a missing cell would be [undefined], never [=== 1]. *)
Definition dependencies (m : list (list number)) : list DependencyEdge :=
  for_loop (length m) 0 (fun i deps =>
    match m !! i with
    | Some row =>
        for_loop (length row) 0 (fun j deps =>
          match row !! j with
          | Some c =>
              if strict_eq_one c
              then deps ++ [{| fromIndex := i; toIndex := j |}]
              else deps
          | None => deps
          end) deps
    | None => deps
    end) [].

(** [entries[index]]: [undefined] unless [index] is a position of the
    array. *)
Definition entry_at (entries : list SemanticHarEntry) (index : Z)
  : option SemanticHarEntry :=
  if (index <? 0)%Z then None else entries !! Z.to_nat index.

Definition getEntryLabel (parseURL : string -> option URL)
    (entries : list SemanticHarEntry) (index : Z) : result string :=
  match entry_at entries index with
  | None => Ok ("Request #" +:+ pretty index)
  | Some entry =>
      try_catch
        (url ← new_URL parseURL (request_url entry);
         Ok (request_method entry +:+ " "
             +:+ pop_or (split "/" (pathname url)) "/"))
        (fun _ => Ok (request_method entry +:+ " Request #" +:+ pretty index))
  end.

(** *** The edge list as the specification words it *)

(** The cell [m[i][j]], if the matrix has one there. *)
Definition cell (m : list (list number)) (i j : nat) : option number :=
  row ← m !! i; row !! j.

(** "Scans the adjacency matrix in row-major order (i ascending, then j
    ascending) and emits one edge per cell equal to 1": the cells of row
    [i] from column [j] on ... *)
Fixpoint row_edges (i j : nat) (row : list number) : list DependencyEdge :=
  match row with
  | [] => []
  | c :: rest =>
      (if strict_eq_one c then [{| fromIndex := i; toIndex := j |}] else [])
      ++ row_edges i (S j) rest
  end.

(** ... and the rows from row [i] on. *)
Fixpoint matrix_edges (i : nat) (m : list (list number))
  : list DependencyEdge :=
  match m with
  | [] => []
  | row :: rest => row_edges i 0 row ++ matrix_edges (S i) rest
  end.

Definition row_major_edges (m : list (list number)) : list DependencyEdge :=
  matrix_edges 0 m.

(** Row-major order on edges: by row, then by column. *)
Definition edge_lt (e1 e2 : DependencyEdge) : Prop :=
  fromIndex e1 < fromIndex e2
  \/ (fromIndex e1 = fromIndex e2 /\ toIndex e1 < toIndex e2).

(** The number of cells that are exactly 1. *)
Definition ones (m : list (list number)) : nat :=
  length (List.filter strict_eq_one (concat m)).

End DependencyGraph.

(** ** RequestDataTable.tsx *)

Module RequestDataTable.

(** The [dependencyCount] memo. *)
Definition dependencyCount (dependencyMatrix : option DependencyMatrix)
  : nat :=
  match dependencyMatrix with
  | None => 0
  | Some dm =>
      let m := adjacencyMatrix dm in
      for_loop (length m) 0 (fun i count =>
        match m !! i with
        | Some row =>
            for_loop (length row) 0 (fun j count =>
              match row !! j with
              | Some c => if strict_eq_one c then S count else count
              | None => count
              end) count
        | None => count
        end) 0
  end.

End RequestDataTable.

(** ** LoliCodeCustomizer.tsx *)

Module LoliCodeCustomizer.

Record CustomHeader : Type := mkHeader {
  name : string;
  value : string
}.

Inductive header_field : Type := FName | FValue.

(** The component's [useState] cells. *)
Record State : Type := mkState {
  selectedIndices : list Z;
  useProxy : bool;
  followRedirects : bool;
  requestTimeout : number;
  retryCount : number;
  customHeaders : list CustomHeader
}.

Definition initial : State :=
  {| selectedIndices := [];
     useProxy := true;
     followRedirects := true;
     requestTimeout := Num 30;
     retryCount := Num 0;
     customHeaders := [] |}.

Record Settings : Type := mkSettings {
  set_useProxy : bool;
  set_followRedirects : bool;
  set_timeout : number;
  set_retryCount : number
}.

(** Modelled from the spec: [LoliCodeConfig] is declared in the package
    @har2lolicode/generator: "selectedIndices", "settings" and "Optional
    custom headers: ordered list of {name, value} pairs" (section 3).
    An absent optional member is [None]. *)
Record LoliCodeConfig : Type := mkConfig {
  cfg_selectedIndices : list Z;
  cfg_settings : Settings;
  cfg_customHeaders : option (list CustomHeader)
}.

(** [entries.map((_, i) => i)] *)
Definition availableIndices (entries : list SemanticHarEntry) : list Z :=
  imap (fun i _ => Z.of_nat i) entries.

Definition setSelectedIndices (v : list Z) (st : State) : State :=
  {| selectedIndices := v;
     useProxy := useProxy st;
     followRedirects := followRedirects st;
     requestTimeout := requestTimeout st;
     retryCount := retryCount st;
     customHeaders := customHeaders st |}.

Definition setUseProxy (v : bool) (st : State) : State :=
  {| selectedIndices := selectedIndices st;
     useProxy := v;
     followRedirects := followRedirects st;
     requestTimeout := requestTimeout st;
     retryCount := retryCount st;
     customHeaders := customHeaders st |}.

Definition setFollowRedirects (v : bool) (st : State) : State :=
  {| selectedIndices := selectedIndices st;
     useProxy := useProxy st;
     followRedirects := v;
     requestTimeout := requestTimeout st;
     retryCount := retryCount st;
     customHeaders := customHeaders st |}.

Definition setRequestTimeout (v : number) (st : State) : State :=
  {| selectedIndices := selectedIndices st;
     useProxy := useProxy st;
     followRedirects := followRedirects st;
     requestTimeout := v;
     retryCount := retryCount st;
     customHeaders := customHeaders st |}.

Definition setRetryCount (v : number) (st : State) : State :=
  {| selectedIndices := selectedIndices st;
     useProxy := useProxy st;
     followRedirects := followRedirects st;
     requestTimeout := requestTimeout st;
     retryCount := v;
     customHeaders := customHeaders st |}.

Definition setCustomHeaders (v : list CustomHeader) (st : State) : State :=
  {| selectedIndices := selectedIndices st;
     useProxy := useProxy st;
     followRedirects := followRedirects st;
     requestTimeout := requestTimeout st;
     retryCount := retryCount st;
     customHeaders := v |}.

Definition handleSelectAll (entries : list SemanticHarEntry) (st : State)
  : State :=
  setSelectedIndices (availableIndices entries) st.

Definition handleSelectNone (st : State) : State :=
  setSelectedIndices [] st.

(** [dependencyMatrix?.criticalPath]: an array, even an empty one, is
    truthy; only a missing matrix skips the update. *)
Definition handleSelectCriticalPath
    (dependencyMatrix : option DependencyMatrix) (st : State) : State :=
  match dependencyMatrix with
  | Some dm => setSelectedIndices (criticalPath dm) st
  | None => st
  end.

(** Whether the "Critical Path Only" button is rendered. *)
Definition criticalPathButtonShown
    (dependencyMatrix : option DependencyMatrix) : bool :=
  match dependencyMatrix with
  | Some dm => (0 <? length (criticalPath dm))%nat
  | None => false
  end.

Definition addCustomHeader (st : State) : State :=
  setCustomHeaders (customHeaders st ++ [{| name := ""; value := "" |}]) st.

Definition set_field (field : header_field) (v : string) (h : CustomHeader)
  : CustomHeader :=
  match field with
  | FName => {| name := v; value := value h |}
  | FValue => {| name := name h; value := v |}
  end.

(** [updated[index][field] = value]: the write throws when no header
    sits at [index].  The header object written to is the one the previous
    array holds too; states are values here, and only the new state is
    read afterwards. *)
Definition updateCustomHeader (index : nat) (field : header_field)
    (v : string) (st : State) : result State :=
  match customHeaders st !! index with
  | Some h =>
      Ok (setCustomHeaders (<[index := set_field field v h]> (customHeaders st)) st)
  | None =>
      TypeError "Cannot set properties of undefined"
  end.

(** [prev.filter((_, i) => i !== index)] *)
Definition removeCustomHeader (index : nat) (st : State) : State :=
  setCustomHeaders (delete index (customHeaders st)) st.

(** The timeout input's [onChange]. *)
Definition onTimeoutChange (input : string) (st : State) : State :=
  setRequestTimeout (Math_max (Num 1) (or_else (parseInt input) (Num 30))) st.

(** The retry input's [onChange]. *)
Definition onRetryChange (input : string) (st : State) : State :=
  setRetryCount (Math_max (Num 0) (or_else (parseInt input) (Num 0))) st.

(** The object literal of [handleGenerate], as handed to [onGenerate]. *)
Definition handleGenerate (entries : list SemanticHarEntry) (st : State)
  : LoliCodeConfig :=
  {| cfg_selectedIndices :=
       if (0 <? length (selectedIndices st))%nat
       then selectedIndices st
       else availableIndices entries;
     cfg_settings :=
       {| set_useProxy := useProxy st;
          set_followRedirects := followRedirects st;
          set_timeout := requestTimeout st;
          set_retryCount := retryCount st |};
     cfg_customHeaders := None |}.

(** The "Generate" button's [disabled] attribute. *)
Definition generateDisabled (entries : list SemanticHarEntry) (st : State)
  : bool :=
  (length (selectedIndices st) =? 0)%nat
  && (0 <? length (availableIndices entries))%nat.

End LoliCodeCustomizer.

(** ** HARUploader.tsx *)

Module HARUploader.

(** The object literals built by the mapping callback.  What is copied
    from the parsed file stays untyped; [null] bodies are [None]. *)
Record BodyDescriptor : Type := mkBody {
  mimeType : jsval;
  text : jsval;
  size : jsval
}.

Record Request : Type := mkRequest {
  method : jsval;
  url : jsval;
  headers : jsval;
  body : option BodyDescriptor;
  cookies : jsval;
  queryString : jsval
}.

Record Response : Type := mkResponse {
  status : jsval;
  statusText : jsval;
  response_headers : jsval;
  response_body : option BodyDescriptor;
  response_cookies : jsval
}.

Record SemanticEntry : Type := mkSemanticEntry {
  entryId : string;
  timestamp : jsval;
  duration : jsval;
  request : Request;
  response : Response;
  tokens : list jsval;
  dependencies : list jsval
}.

(** [request.postData ? { mimeType, text, size: request.bodySize || 0 }
    : null] *)
Definition request_body (rq : jsval) : result (option BodyDescriptor) :=
  pd ← get rq "postData";
  if truthy pd then
    mt ← get pd "mimeType";
    tx ← get pd "text";
    bs ← get rq "bodySize";
    Ok (Some {| mimeType := mt; text := tx;
                size := or_default bs (VNum (Num 0)) |})
  else Ok None.

(** [response.content ? { mimeType, text, size: content.size || 0 }
    : null] *)
Definition response_content (rs : jsval) : result (option BodyDescriptor) :=
  ct ← get rs "content";
  if truthy ct then
    mt ← get ct "mimeType";
    tx ← get ct "text";
    sz ← get ct "size";
    Ok (Some {| mimeType := mt; text := tx;
                size := or_default sz (VNum (Num 0)) |})
  else Ok None.

(** The callback of [harData.log.entries.map((entry, index) => ...)],
    its members evaluated in the order they are written. *)
Definition mapEntry (entry : jsval) (index : nat) : result SemanticEntry :=
  started ← get entry "startedDateTime";
  time ← get entry "time";
  rq ← get entry "request";
  rq_method ← get rq "method";
  rq_url ← get rq "url";
  rq_headers ← get rq "headers";
  rq_body ← request_body rq;
  rq_cookies ← get rq "cookies";
  rq_query ← get rq "queryString";
  rs ← get entry "response";
  rs_status ← get rs "status";
  rs_statusText ← get rs "statusText";
  rs_headers ← get rs "headers";
  rs_body ← response_content rs;
  rs_cookies ← get rs "cookies";
  Ok {| entryId := "entry-" +:+ pretty index;
        timestamp := started;
        duration := time;
        request :=
          {| method := rq_method;
             url := rq_url;
             headers := or_default rq_headers (VArr []);
             body := rq_body;
             cookies := or_default rq_cookies (VArr []);
             queryString := or_default rq_query (VArr []) |};
        response :=
          {| status := rs_status;
             statusText := rs_statusText;
             response_headers := or_default rs_headers (VArr []);
             response_body := rs_body;
             response_cookies := or_default rs_cookies (VArr []) |};
        tokens := [];
        dependencies := [] |}.

(** Array.prototype.map: the callback runs on the items from left to
    right with their positions; the first throw ends the call. *)
Fixpoint map_indexed {A B : Type} (f : A -> nat -> result B) (i : nat)
    (items : list A) : result (list B) :=
  match items with
  | [] => Ok []
  | x :: rest =>
      y ← f x i;
      ys ← map_indexed f (S i) rest;
      Ok (y :: ys)
  end.

(** The method call [entries.map(f)]: anything but an array has no
    callable [map]. *)
Definition call_map {B : Type} (entries : jsval) (f : jsval -> nat -> result B)
  : result (list B) :=
  match entries with
  | VArr items => map_indexed f 0 items
  | _ =>
      _ ← get entries "map";
      TypeError "harData.log.entries.map is not a function"
  end.

(** The body of the [try] block after [JSON.parse]: the validation and
    the mapping. *)
Definition semanticEntries (harData : jsval) : result (list SemanticEntry) :=
  log ← get harData "log";
  if negb (truthy log) then throw_Error "Invalid HAR file format"
  else
    entries ← get log "entries";
    if negb (truthy entries) then throw_Error "Invalid HAR file format"
    else call_map entries mapEntry.

(** The component's state, the store and the console. *)
Record World (Store : Type) : Type := mkWorld {
  isProcessing : bool;
  error : option string;
  store : Store;
  console : list thrown
}.
Arguments mkWorld {Store} _ _ _ _.
Arguments isProcessing {Store} _.
Arguments error {Store} _.
Arguments store {Store} _.
Arguments console {Store} _.

(** [err instanceof Error ? err.message : 'Failed to parse HAR file'] *)
Definition errorMessage (err : thrown) : string :=
  match err with
  | ErrorObject _ message => message
  | NonError _ => "Failed to parse HAR file"
  end.

Section processHARFile.
Context {Store : Type}.
(** [JSON.parse], which throws on text that is not JSON. *)
Variable JSON_parse : string -> result jsval.
(** The store's reducer for the action [setHarEntries(entries)]; the
    slice is kept in the store module, not in this component. *)
Variable setHarEntries : list SemanticEntry -> Store -> Store.

(** [processHARFile], from the text of the file on. *)
Definition processHARFile (text : string) (w : World Store) : World Store :=
  let w1 := mkWorld true (error w) (store w) (console w) in
  let w2 := mkWorld (isProcessing w1) None (store w1) (console w1) in
  let w3 :=
    match harData ← JSON_parse text; semanticEntries harData with
    | Ok entries =>
        mkWorld (isProcessing w2) (error w2)
                (setHarEntries entries (store w2)) (console w2)
    | Throw err =>
        mkWorld (isProcessing w2) (Some (errorMessage err))
                (store w2) (console w2 ++ [err])
    end in
  mkWorld false (error w3) (store w3) (console w3).
End processHARFile.

(** What the specification calls a valid HAR input with the entries
    [items]: a [log] object with an [entries] array, each entry carrying
    a [request] and a [response]. *)
Definition is_nullish (v : jsval) : bool :=
  match v with
  | VUndefined | VNull => true
  | _ => false
  end.

Definition valid_entry (entry : jsval) : Prop :=
  exists rq rs,
    get entry "request" = Ok rq /\ is_nullish rq = false /\
    get entry "response" = Ok rs /\ is_nullish rs = false.

Definition valid_har (harData : jsval) (items : list jsval) : Prop :=
  exists log,
    get harData "log" = Ok log /\
    get log "entries" = Ok (VArr items) /\
    Forall valid_entry items.

(** Valid JSON without a [log] object holding an [entries] collection. *)
Definition lacks_entries (harData : jsval) : Prop :=
  forall log items,
    ~ (get harData "log" = Ok log /\ get log "entries" = Ok (VArr items)).

(** The member [v.k] where reading it does not throw. *)
Definition prop (v : jsval) (k : string) : jsval :=
  match get v k with
  | Ok x => x
  | Throw _ => VUndefined
  end.

(** What the per-entry mapping promises of the semantic entry [se] made
    from the raw entry [entry] at position [i]: the positional identifier,
    empty [tokens] and [dependencies], the request line and status of that
    very entry, and a body descriptor exactly when [postData] (for the
    request) or [content] (for the response) is there and truthy. *)
Definition normalises (entry : jsval) (i : nat) (se : SemanticEntry) : Prop :=
  entryId se = "entry-" +:+ pretty i
  /\ tokens se = []
  /\ dependencies se = []
  /\ timestamp se = prop entry "startedDateTime"
  /\ method (request se) = prop (prop entry "request") "method"
  /\ url (request se) = prop (prop entry "request") "url"
  /\ status (response se) = prop (prop entry "response") "status"
  /\ (is_Some (body (request se))
      <-> truthy (prop (prop entry "request") "postData") = true)
  /\ (is_Some (response_body (response se))
      <-> truthy (prop (prop entry "response") "content") = true).

(** *** A store and sample files for the examples *)

(** Modelled from the spec: the reducer of [setHarEntries] lives in the
    store slice, not in this component; the collection "is created
    once per uploaded file and replaces any prior collection in full"
    (section 3, lifecycle). *)
Definition replace_entries (entries : list SemanticEntry)
    (published : list SemanticEntry) : list SemanticEntry :=
  entries.

Definition quoted (s : string) : string :=
  String (ascii_of_nat 34) (s +:+ String (ascii_of_nat 34) "").

(** A capture of two exchanges, as text ... *)
Definition sample_text : string :=
  "{" +:+ quoted "log" +:+ ":{" +:+ quoted "entries" +:+ ":[{"
  +:+ quoted "request" +:+ ":{"
  +:+ quoted "method" +:+ ":" +:+ quoted "POST" +:+ ","
  +:+ quoted "url" +:+ ":" +:+ quoted "https://example.test/login" +:+ ","
  +:+ quoted "postData" +:+ ":{"
  +:+ quoted "mimeType" +:+ ":" +:+ quoted "text/plain" +:+ ","
  +:+ quoted "text" +:+ ":" +:+ quoted "u=1" +:+ "}},"
  +:+ quoted "response" +:+ ":{" +:+ quoted "status" +:+ ":200}},{"
  +:+ quoted "request" +:+ ":{"
  +:+ quoted "method" +:+ ":" +:+ quoted "GET" +:+ ","
  +:+ quoted "url" +:+ ":" +:+ quoted "https://example.test/" +:+ "},"
  +:+ quoted "response" +:+ ":{" +:+ quoted "status" +:+ ":204,"
  +:+ quoted "content" +:+ ":{" +:+ quoted "size" +:+ ":0}}}]}}".

(** ... and as the value [JSON.parse] makes of it. *)
Definition sample_har : jsval :=
  VObj [("log", VObj [("entries", VArr [
    VObj [("request", VObj [("method", VStr "POST");
                            ("url", VStr "https://example.test/login");
                            ("postData", VObj [("mimeType", VStr "text/plain");
                                               ("text", VStr "u=1")])]);
          ("response", VObj [("status", VNum (Num 200))])];
    VObj [("request", VObj [("method", VStr "GET");
                            ("url", VStr "https://example.test/")]);
          ("response", VObj [("status", VNum (Num 204));
                             ("content", VObj [("size", VNum (Num 0))])])]
  ])])].

(** [JSON.parse] on the handful of texts the examples use; any other text
    is taken for malformed. *)
Definition sample_JSON_parse (text : string) : result jsval :=
  if String.eqb text sample_text then Ok sample_har
  else if String.eqb text "{}" then Ok (VObj [])
  else if String.eqb text "null" then Ok VNull
  else if String.eqb text "[]" then Ok (VArr [])
  else Throw (ErrorObject "SyntaxError" "Unexpected token in JSON").

(** A world with one entry published by an earlier upload. *)
Definition sample_world : World (list SemanticEntry) :=
  mkWorld false None
    [{| entryId := "entry-0";
        timestamp := VUndefined;
        duration := VUndefined;
        request := mkRequest (VStr "GET") (VStr "https://old.test/")
                     (VArr []) None (VArr []) (VArr []);
        response := mkResponse (VNum (Num 200)) (VStr "OK") (VArr []) None (VArr []);
        tokens := [];
        dependencies := [] |}]
    [].

End HARUploader.

(** ** Further string and number operations *)

Module JsExtra.

(** [s.endsWith(suffix)]: some tail of [s] is [suffix]. *)
Fixpoint endsWith (s suffix : string) : bool :=
  if String.eqb s suffix then true
  else match s with
       | EmptyString => false
       | String _ rest => endsWith rest suffix
       end.

(** [xs.join(sep)], the inverse of [split]. *)
Fixpoint join (sep : string) (xs : list string) : string :=
  match xs with
  | [] => ""
  | x :: rest =>
      match rest with
      | [] => x
      | _ :: _ => x +:+ sep +:+ join sep rest
      end
  end.

(** How often the character [c] occurs in [s]. *)
Fixpoint count_char (c : ascii) (s : string) : nat :=
  match s with
  | EmptyString => 0
  | String c' rest => (if Ascii.eqb c' c then 1 else 0) + count_char c rest
  end.

(** The line feed of ['\n']. *)
Definition newline : ascii := ascii_of_nat 10.

(** Comparisons of a number with an integer constant; any comparison
    with [NaN] is false. *)
Definition num_ge (a : number) (b : Z) : bool :=
  match a with
  | Num x => (b <=? x)%Z
  | NaN => false
  end.

Definition num_lt (a : number) (b : Z) : bool :=
  match a with
  | Num x => (x <? b)%Z
  | NaN => false
  end.

End JsExtra.

Export JsExtra.

(** ** RequestDataTable.tsx: one row *)

Module RequestTableRow.

(** The [url] memo of a row: host and path of the request URL, or the
    host "invalid" and the URL itself when it does not parse. *)
Definition url (parseURL : string -> option URL) (entry : SemanticHarEntry)
  : result (string * string) :=
  try_catch
    (parsedUrl ← new_URL parseURL (request_url entry);
     Ok (hostname parsedUrl, pathname parsedUrl))
    (fun _ => Ok ("invalid", request_url entry)).

(** The [statusColor] memo. *)
Definition statusColor (status : number) : string :=
  if num_ge status 200 && num_lt status 300 then "bg-green-600"
  else if num_ge status 300 && num_lt status 400 then "bg-blue-600"
  else if num_ge status 400 && num_lt status 500 then "bg-yellow-600"
  else "bg-red-600".

(** The [methodColor] memo: a [switch] on the method string. *)
Definition methodColor (method : string) : string :=
  if String.eqb method "GET" then "bg-blue-500"
  else if String.eqb method "POST" then "bg-green-500"
  else if String.eqb method "PUT" then "bg-yellow-500"
  else if String.eqb method "DELETE" then "bg-red-500"
  else if String.eqb method "PATCH" then "bg-purple-500"
  else "bg-gray-500".

End RequestTableRow.

(** ** HARUploader.tsx: the drop zone and the file input *)

Module HARUploaderHandlers.
Import HARUploader.

(** What the handlers read of a [File]: its name, its MIME type and the
    text [file.text()] resolves to. *)
Record File : Type := mkFile {
  file_name : string;
  file_type : string;
  file_text : string
}.

(** The component's [isDragging] cell beside the rest of its world. *)
Record Uploader (Store : Type) : Type := mkUploader {
  isDragging : bool;
  world : World Store
}.
Arguments mkUploader {Store} _ _.
Arguments isDragging {Store} _.
Arguments world {Store} _.

(** The predicate of [files.find(...)] in [handleDrop]. *)
Definition isHarFile (f : File) : bool :=
  endsWith (file_name f) ".har" || String.eqb (file_type f) "application/json".

Definition handleDragOver {Store : Type} (u : Uploader Store) : Uploader Store :=
  mkUploader true (world u).

Definition handleDragLeave {Store : Type} (u : Uploader Store) : Uploader Store :=
  mkUploader false (world u).

Section handlers.
Context {Store : Type}.
Variable JSON_parse : string -> result jsval.
Variable setHarEntries : list SemanticEntry -> Store -> Store.

(** [handleDrop]: the first dropped file that looks like a HAR file is
    processed; without one only the error is set. *)
Definition handleDrop (files : list File) (u : Uploader Store) : Uploader Store :=
  let u1 := mkUploader false (world u) in
  match List.find isHarFile files with
  | Some harFile =>
      mkUploader (isDragging u1)
        (processHARFile JSON_parse setHarEntries (file_text harFile) (world u1))
  | None =>
      mkUploader (isDragging u1)
        (mkWorld (isProcessing (world u1)) (Some "Please drop a valid HAR file")
                 (store (world u1)) (console (world u1)))
  end.

(** [handleFileInput]: [e.target.files?.[0]], whatever its name. *)
Definition handleFileInput (files : list File) (u : Uploader Store)
  : Uploader Store :=
  match files with
  | file :: _ =>
      mkUploader (isDragging u)
        (processHARFile JSON_parse setHarEntries (file_text file) (world u))
  | [] => u
  end.
End handlers.

End HARUploaderHandlers.

(** ** LoliCodePreview.tsx: the statistics of the generated script *)

Module LoliCodePreview.

Record Stats : Type := mkStats {
  lines : nat;
  size : nat;
  requests : nat
}.

(** [new Blob([code]).size]: the length of the UTF-8 encoding; a code
    unit below 128 takes one byte, one from 128 to 255 two.  (Code units
    from U+0800 on, which take three bytes, do not occur in the strings
    modelled here.) *)
Fixpoint blob_size (code : string) : nat :=
  match code with
  | EmptyString => 0
  | String c rest => (if (nat_of_ascii c <? 128)%nat then 1 else 2) + blob_size rest
  end.

(** [(code.match(/REQUEST/g) || []).length]: the matches are found from
    left to right and do not overlap; [skip] characters of the last
    match are still to be passed. *)
Fixpoint count_REQUEST (code : string) (skip : nat) : nat :=
  match code with
  | EmptyString => 0
  | String _ rest =>
      match skip with
      | S k => count_REQUEST rest k
      | O =>
          if String.prefix "REQUEST" code then S (count_REQUEST rest 6)
          else count_REQUEST rest 0
      end
  end.

(** The [stats] memo; the empty string is falsy. *)
Definition stats (code : string) : Stats :=
  if String.eqb code "" then {| lines := 0; size := 0; requests := 0 |}
  else {| lines := length (split newline code);
          size := blob_size code;
          requests := count_REQUEST code 0 |}.

End LoliCodePreview.

(* ===================================================================== *)
(** * Part II: properties                                                 *)
(* ===================================================================== *)

(** ** Index loops *)

Section loops.
Context {A St : Type}.

(** A counting loop over the positions of [l] that reads [l !! i] is the
    indexed fold over [l]. *)
Lemma for_loop_lookup_from (f : nat -> A -> St -> St) (pre l : list A) (s : St) :
  for_loop (length l) (length pre)
    (fun i s => match (pre ++ l) !! i with Some x => f i x s | None => s end) s
  = foldl_idx f (length pre) l s.
Proof.
  revert pre s. induction l as [|x l IH]; intros pre s; simpl; [reflexivity|].
  rewrite list_lookup_middle by reflexivity.
  specialize (IH (pre ++ [x]) (f (length pre) x s)).
  rewrite length_app, Nat.add_1_r, <- app_assoc in IH. exact IH.
Qed.

Lemma for_loop_lookup (f : nat -> A -> St -> St) (l : list A) (s : St) :
  for_loop (length l) 0
    (fun i s => match l !! i with Some x => f i x s | None => s end) s
  = foldl_idx f 0 l s.
Proof. exact (for_loop_lookup_from f [] l s). Qed.

Lemma foldl_idx_ext (f g : nat -> A -> St -> St) (i : nat) (l : list A) (s : St) :
  (forall j x t, f j x t = g j x t) ->
  foldl_idx f i l s = foldl_idx g i l s.
Proof.
  intros Hfg. revert i s. induction l as [|x l IH]; intros i s; simpl.
  - reflexivity.
  - rewrite Hfg. apply IH.
Qed.
End loops.

(** ** The edge list of DependencyGraph *)

Section edges.
Import DependencyGraph.

Lemma strict_eq_one_spec (c : number) : strict_eq_one c = true <-> c = Num 1.
Proof.
  destruct c as [|z]; simpl; [split; discriminate|].
  rewrite Z.eqb_eq. split; [intros ->; reflexivity | intros [= ->]; reflexivity].
Qed.

(** The inner loop appends the edges of the row. *)
Lemma inner_loop_edges (i : nat) (row : list number) (deps : list DependencyEdge) :
  for_loop (length row) 0
    (fun j deps =>
       match row !! j with
       | Some c =>
           if strict_eq_one c
           then deps ++ [{| fromIndex := i; toIndex := j |}]
           else deps
       | None => deps
       end) deps
  = deps ++ row_edges i 0 row.
Proof.
  rewrite (for_loop_lookup
             (fun j c deps =>
                if strict_eq_one c
                then deps ++ [{| fromIndex := i; toIndex := j |}]
                else deps)).
  generalize 0 as k. revert deps.
  induction row as [|c row IH]; intros deps k; simpl.
  - symmetry. apply app_nil_r.
  - rewrite IH. destruct (strict_eq_one c); simpl.
    + rewrite <- app_assoc. reflexivity.
    + reflexivity.
Qed.

Lemma outer_fold_edges (k : nat) (m : list (list number)) (deps : list DependencyEdge) :
  foldl_idx (fun i row deps => deps ++ row_edges i 0 row) k m deps
  = deps ++ matrix_edges k m.
Proof.
  revert k deps. induction m as [|row m IH]; intros k deps; simpl.
  - symmetry. apply app_nil_r.
  - rewrite IH, <- app_assoc. reflexivity.
Qed.

(** The two nested loops compute the row-major edge list. *)
Lemma dependencies_row_major (m : list (list number)) :
  dependencies m = row_major_edges m.
Proof.
  unfold dependencies, row_major_edges.
  rewrite (for_loop_lookup
             (fun i row deps =>
                for_loop (length row) 0
                  (fun j deps =>
                     match row !! j with
                     | Some c =>
                         if strict_eq_one c
                         then deps ++ [{| fromIndex := i; toIndex := j |}]
                         else deps
                     | None => deps
                     end) deps)).
  rewrite (foldl_idx_ext _ (fun i row deps => deps ++ row_edges i 0 row))
    by (intros; apply inner_loop_edges).
  apply outer_fold_edges.
Qed.
End edges.

Section edge_order.
Import DependencyGraph.

Lemma elem_of_row_edges (i k : nat) (row : list number) (e : DependencyEdge) :
  e ∈ row_edges i k row <->
  fromIndex e = i /\ k <= toIndex e /\ row !! (toIndex e - k) = Some (Num 1).
Proof.
  revert k. induction row as [|c row IH]; intros k; simpl.
  - rewrite elem_of_nil. split; [tauto | intros (_ & _ & H); discriminate].
  - rewrite elem_of_app, IH. split.
    + intros [Hc | (Hf & Hk & Hl)].
      * destruct (strict_eq_one c) eqn:Ec; [|by apply elem_of_nil in Hc].
        apply list_elem_of_singleton in Hc. subst e. simpl.
        rewrite Nat.sub_diag. simpl.
        apply strict_eq_one_spec in Ec. subst c. auto.
      * split; [exact Hf|]. split; [lia|].
        replace (toIndex e - k) with (S (toIndex e - S k)) by lia. exact Hl.
    + intros (Hf & Hk & Hl).
      destruct (decide (toIndex e = k)) as [Heq | Hne].
      * left. rewrite Heq, Nat.sub_diag in Hl. simpl in Hl.
        injection Hl as ->. simpl. apply list_elem_of_singleton.
        destruct e; simpl in *; subst; reflexivity.
      * right. split; [exact Hf|]. split; [lia|].
        replace (toIndex e - k) with (S (toIndex e - S k)) in Hl by lia.
        exact Hl.
Qed.

Lemma elem_of_matrix_edges (k : nat) (m : list (list number)) (e : DependencyEdge) :
  e ∈ matrix_edges k m <->
  k <= fromIndex e /\ cell m (fromIndex e - k) (toIndex e) = Some (Num 1).
Proof.
  revert k. induction m as [|row m IH]; intros k; simpl.
  - rewrite elem_of_nil. split; [tauto | intros (_ & H); discriminate].
  - rewrite elem_of_app, IH, elem_of_row_edges. unfold cell. split.
    + intros [(Hf & _ & Hl) | (Hk & Hc)].
      * rewrite Hf, Nat.sub_diag. simpl. rewrite Nat.sub_0_r in Hl.
        split; [lia | exact Hl].
      * split; [lia|].
        replace (fromIndex e - k) with (S (fromIndex e - S k)) by lia.
        exact Hc.
    + intros (Hk & Hc).
      destruct (decide (fromIndex e = k)) as [Heq | Hne].
      * left. rewrite Heq, Nat.sub_diag in Hc. simpl in Hc.
        rewrite Nat.sub_0_r. split; [exact Heq|]. split; [lia | exact Hc].
      * right. split; [lia|].
        replace (fromIndex e - k) with (S (fromIndex e - S k)) in Hc by lia.
        exact Hc.
Qed.

Lemma row_edges_sorted (i k : nat) (row : list number) :
  StronglySorted edge_lt (row_edges i k row).
Proof.
  revert k. induction row as [|c row IH]; intros k; simpl.
  - constructor.
  - apply StronglySorted_app_2; [| |apply IH].
    + intros e1 e2 H1 H2.
      destruct (strict_eq_one c); [|by apply elem_of_nil in H1].
      apply list_elem_of_singleton in H1. subst e1.
      apply elem_of_row_edges in H2 as (Hf & Hk & _).
      right. simpl. split; [symmetry; exact Hf | lia].
    + destruct (strict_eq_one c); repeat constructor.
Qed.

Lemma matrix_edges_sorted (k : nat) (m : list (list number)) :
  StronglySorted edge_lt (matrix_edges k m).
Proof.
  revert k. induction m as [|row m IH]; intros k; simpl.
  - constructor.
  - apply StronglySorted_app_2; [|apply row_edges_sorted|apply IH].
    intros e1 e2 H1 H2.
    apply elem_of_row_edges in H1 as (Hf & _ & _).
    apply elem_of_matrix_edges in H2 as (Hk & _).
    left. lia.
Qed.

Lemma edge_lt_irrefl (e : DependencyEdge) : ~ edge_lt e e.
Proof. unfold edge_lt. lia. Qed.

Lemma sorted_edges_NoDup (l : list DependencyEdge) :
  StronglySorted edge_lt l -> NoDup l.
Proof.
  induction 1 as [|e l _ IH Hall]; constructor; [|exact IH].
  intros Hin. rewrite Forall_forall in Hall.
  exact (edge_lt_irrefl e (Hall e Hin)).
Qed.

(** An edge is listed exactly when its cell is 1. *)
Lemma elem_of_dependencies (m : list (list number)) (i j : nat) :
  {| fromIndex := i; toIndex := j |} ∈ dependencies m
  <-> cell m i j = Some (Num 1).
Proof.
  rewrite dependencies_row_major. unfold row_major_edges.
  rewrite elem_of_matrix_edges. simpl. rewrite Nat.sub_0_r.
  split; [intros [_ H]; exact H | intros H; split; [lia | exact H]].
Qed.

(** A matrix with a single 1 has a single edge. *)
Lemma dependencies_single (m : list (list number)) (i0 j0 : nat) :
  (forall i j, cell m i j = Some (Num 1) <-> i = i0 /\ j = j0) ->
  dependencies m = [{| fromIndex := i0; toIndex := j0 |}].
Proof.
  intros Hone. apply Permutation_singleton_r.
  apply NoDup_Permutation.
  - apply sorted_edges_NoDup. rewrite dependencies_row_major.
    apply matrix_edges_sorted.
  - apply NoDup_singleton.
  - intros [i j]. rewrite elem_of_dependencies, Hone, list_elem_of_singleton.
    split; [intros [-> ->]; reflexivity | intros [= -> ->]; auto].
Qed.
End edge_order.

Section edge_count.
Import DependencyGraph RequestDataTable.

Lemma length_row_edges (i k : nat) (row : list number) :
  length (row_edges i k row) = length (List.filter strict_eq_one row).
Proof.
  revert k. induction row as [|c row IH]; intros k; simpl; [reflexivity|].
  rewrite length_app, IH. destruct (strict_eq_one c); reflexivity.
Qed.

Lemma length_matrix_edges (k : nat) (m : list (list number)) :
  length (matrix_edges k m) = ones m.
Proof.
  unfold ones. revert k. induction m as [|row m IH]; intros k; simpl.
  - reflexivity.
  - rewrite length_app, List.filter_app, length_app, IH, length_row_edges.
    reflexivity.
Qed.

(** The inner counting loop adds the number of 1-cells of the row. *)
Lemma inner_loop_count (row : list number) (count : nat) :
  for_loop (length row) 0
    (fun j count =>
       match row !! j with
       | Some c => if strict_eq_one c then S count else count
       | None => count
       end) count
  = count + length (List.filter strict_eq_one row).
Proof.
  rewrite (for_loop_lookup
             (fun (j : nat) c count => if strict_eq_one c then S count else count)).
  generalize 0 as k. revert count.
  induction row as [|c row IH]; intros count k; simpl; [lia|].
  rewrite IH. destruct (strict_eq_one c); simpl; lia.
Qed.

Lemma outer_fold_count (k : nat) (m : list (list number)) (count : nat) :
  foldl_idx (fun (i : nat) row count =>
               count + length (List.filter strict_eq_one row)) k m count
  = count + ones m.
Proof.
  unfold ones. revert k count.
  induction m as [|row m IH]; intros k count; simpl; [lia|].
  rewrite IH, List.filter_app, length_app. lia.
Qed.

Lemma dependencyCount_ones (dm : DependencyMatrix) :
  dependencyCount (Some dm) = ones (adjacencyMatrix dm).
Proof.
  unfold dependencyCount.
  rewrite (for_loop_lookup
             (fun (i : nat) row count =>
                for_loop (length row) 0
                  (fun j count =>
                     match row !! j with
                     | Some c => if strict_eq_one c then S count else count
                     | None => count
                     end) count)).
  rewrite (foldl_idx_ext _
             (fun (i : nat) row count =>
                count + length (List.filter strict_eq_one row)))
    by (intros; apply inner_loop_count).
  rewrite outer_fold_count. reflexivity.
Qed.
End edge_count.

Section dependency_claims.
Import DependencyGraph RequestDataTable.

(** C2.  For every adjacency matrix the edge list of DependencyGraph is
    the row-major scan (row index ascending, then column index
    ascending) that emits one edge per cell equal to 1: it equals the
    scan as the specification words it; an edge (i, j) is listed exactly
    when cell [i][j] is 1; no edge is listed twice; the list ascends in
    row-major order.  The list is a function of the matrix alone, so two
    calls on the same matrix agree, and a matrix whose only 1 sits at
    [i0][j0] (such as [2][5]) gives exactly the one edge (i0, j0). *)
Theorem C2_edges_row_major (m : list (list number)) :
  dependencies m = row_major_edges m
  /\ (forall i j,
        {| fromIndex := i; toIndex := j |} ∈ dependencies m
        <-> cell m i j = Some (Num 1))
  /\ NoDup (dependencies m)
  /\ StronglySorted edge_lt (dependencies m)
  /\ (forall m', m' = m -> dependencies m' = dependencies m)
  /\ (forall i0 j0,
        (forall i j, cell m i j = Some (Num 1) <-> i = i0 /\ j = j0) ->
        dependencies m = [{| fromIndex := i0; toIndex := j0 |}]).
Proof.
  split; [apply dependencies_row_major|].
  split; [apply elem_of_dependencies|].
  assert (StronglySorted edge_lt (dependencies m)) as Hsorted.
  { rewrite dependencies_row_major. apply matrix_edges_sorted. }
  split; [apply sorted_edges_NoDup, Hsorted|].
  split; [exact Hsorted|].
  split; [intros m' ->; reflexivity|].
  apply dependencies_single.
Qed.

(** C10.  The count of RequestDataTable equals the length of the edge
    list DependencyGraph derives from the same matrix, and both are the
    number of cells that are exactly 1: a cell with any other value adds
    to neither. *)
Theorem C10_count_matches_edges (dm : DependencyMatrix) :
  dependencyCount (Some dm) = length (dependencies (adjacencyMatrix dm))
  /\ dependencyCount (Some dm) = ones (adjacencyMatrix dm)
  /\ length (dependencies (adjacencyMatrix dm)) = ones (adjacencyMatrix dm).
Proof.
  assert (length (dependencies (adjacencyMatrix dm)) = ones (adjacencyMatrix dm))
    as Hlen.
  { rewrite dependencies_row_major. apply length_matrix_edges. }
  rewrite Hlen, dependencyCount_ones. auto.
Qed.
End dependency_claims.

(** The matrix of the specification's example: a 1 at [2][5], zeros
    elsewhere. *)
Example edges_2_5 :
  DependencyGraph.dependencies
    (<[2 := <[5 := Num 1]> (replicate 6 (Num 0))]>
       (replicate 6 (replicate 6 (Num 0))))
  = [DependencyGraph.mkEdge 2 5].
Proof. reflexivity. Qed.

(** Values other than 1 (2, -1, NaN) are not edges and are not counted. *)
Example edges_other_values :
  let m := [[Num 1; Num 0]; [Num 1; Num 1; Num 2]; []; [NaN; Num 1; Num (-1)]] in
  DependencyGraph.dependencies m
  = [DependencyGraph.mkEdge 0 0; DependencyGraph.mkEdge 1 0;
     DependencyGraph.mkEdge 1 1; DependencyGraph.mkEdge 3 1]
  /\ RequestDataTable.dependencyCount (Some (mkMatrix m [])) = 4.
Proof. split; reflexivity. Qed.

Lemma C2_edges_row_major_witness :
  DependencyGraph.dependencies
    [[]; []; [Num 0; Num 0; Num 0; Num 0; Num 0; Num 1]]
  = [DependencyGraph.mkEdge 2 5].
Proof.
  apply (C2_edges_row_major [[]; []; [Num 0; Num 0; Num 0; Num 0; Num 0; Num 1]]).
  intros i j. unfold DependencyGraph.cell.
  destruct i as [|[|[|i]]]; simpl;
    try (split; [discriminate | intros [? _]; lia]).
  destruct j as [|[|[|[|[|[|j]]]]]]; simpl;
      try (split; [intros [=] | intros [_ ?]; lia]).
    split; auto.
Defined.

(** ** The configuration built by LoliCodeCustomizer *)

Section customizer.
Import LoliCodeCustomizer.

Lemma imap_index {A B : Type} (f : nat -> B) (l : list A) :
  imap (fun i _ => f i) l = f <$> seq 0 (length l).
Proof.
  revert f. induction l as [|x l IH]; intros f; [reflexivity|].
  rewrite imap_cons. simpl. f_equal.
  change ((fun (i : nat) (_ : A) => f i) ∘ S) with (fun (i : nat) (_ : A) => f (S i)).
  rewrite (IH (fun i => f (S i))), <- fmap_S_seq, <- list_fmap_compose.
  reflexivity.
Qed.

(** The available indices are 0 .. N-1 in order. *)
Lemma availableIndices_range (entries : list SemanticHarEntry) :
  availableIndices entries = Z.of_nat <$> seq 0 (length entries).
Proof. apply imap_index. Qed.

(** A non-empty selection is handed over as it is. *)
Lemma handleGenerate_keeps_selection (entries : list SemanticHarEntry) (st : State) :
  selectedIndices st <> [] ->
  cfg_selectedIndices (handleGenerate entries st) = selectedIndices st.
Proof.
  intros Hne. unfold handleGenerate. simpl.
  destruct (selectedIndices st); [congruence | reflexivity].
Qed.

(** The "Generate" button is disabled exactly when the selection is empty
    although there are entries. *)
Lemma generateDisabled_iff (entries : list SemanticHarEntry) (st : State) :
  generateDisabled entries st = true
  <-> selectedIndices st = [] /\ entries <> [].
Proof.
  unfold generateDisabled. rewrite availableIndices_range, length_fmap, length_seq.
  destruct (selectedIndices st), entries; simpl; split;
    try discriminate; try (intros [? ?]; congruence); auto.
Qed.

(** C1, amended.  When the current selection is empty, the configuration
    built by [handleGenerate] selects the full range 0 .. N-1 over the N
    entries: with no entries that is the empty selection, with at least
    one entry it is not empty, and with 5 entries it is [0,1,2,3,4].  A
    selection that is not empty is handed over as it is, whether or not
    there are entries. *)
Theorem C1_empty_selection_selects_all
    (entries : list SemanticHarEntry) (st : State) :
  (selectedIndices st = [] ->
   cfg_selectedIndices (handleGenerate entries st)
   = Z.of_nat <$> seq 0 (length entries)
   /\ (entries = [] -> cfg_selectedIndices (handleGenerate entries st) = [])
   /\ (entries <> [] -> cfg_selectedIndices (handleGenerate entries st) <> [])
   /\ (length entries = 5 ->
       cfg_selectedIndices (handleGenerate entries st) = [0; 1; 2; 3; 4]%Z))
  /\ (selectedIndices st <> [] ->
      cfg_selectedIndices (handleGenerate entries st) = selectedIndices st).
Proof.
  split; [|apply handleGenerate_keeps_selection].
  intros Hsel.
  assert (cfg_selectedIndices (handleGenerate entries st)
          = Z.of_nat <$> seq 0 (length entries)) as Hall.
  { unfold handleGenerate. simpl. rewrite Hsel. simpl.
    apply availableIndices_range. }
  rewrite Hall. split; [reflexivity|]. split; [|split].
  - intros ->. reflexivity.
  - destruct entries as [|e entries]; [congruence | discriminate].
  - intros ->. reflexivity.
Qed.

(** C9.  "Select critical path" replaces the selection by the critical
    path as it is, order and repetitions included; the button is there
    when the path is not empty.  With the path [3,1,4] the selection
    becomes [3,1,4]. *)
Theorem C9_select_critical_path (dm : DependencyMatrix) (st : State) :
  criticalPath dm <> [] ->
  criticalPathButtonShown (Some dm) = true
  /\ selectedIndices (handleSelectCriticalPath (Some dm) st) = criticalPath dm
  /\ (criticalPath dm = [3; 1; 4]%Z ->
      selectedIndices (handleSelectCriticalPath (Some dm) st) = [3; 1; 4]%Z).
Proof.
  intros Hne. split; [|split].
  - unfold criticalPathButtonShown. destruct (criticalPath dm); [congruence | reflexivity].
  - reflexivity.
  - intros Hcp. simpl. exact Hcp.
Qed.

(** The number stored by the timeout handler, by what [parseInt] reads. *)
Lemma onTimeoutChange_value (input : string) (st : State) :
  requestTimeout (onTimeoutChange input st)
  = match parseInt input with
    | NaN => Num 30
    | Num z => if (z =? 0)%Z then Num 30 else Num (Z.max 1 z)
    end.
Proof.
  unfold onTimeoutChange, or_else, number_truthy. simpl.
  destruct (parseInt input) as [|z]; [reflexivity|].
  destruct (z =? 0)%Z; reflexivity.
Qed.

(** C3, amended.  The timeout handler never stores less than 1.  Input
    without a leading integer, and input that reads as 0, gives the
    default 30; input that reads as a negative integer gives 1; input that
    reads as an integer from 1 to 300 gives that integer. *)
Theorem C3_timeout_default_and_floor (input : string) (st : State) :
  (exists z, requestTimeout (onTimeoutChange input st) = Num z /\ (1 <= z)%Z)
  /\ (parseInt input = NaN ->
      requestTimeout (onTimeoutChange input st) = Num 30)
  /\ (parseInt input = Num 0 ->
      requestTimeout (onTimeoutChange input st) = Num 30)
  /\ (forall z, parseInt input = Num z -> (z < 0)%Z ->
      requestTimeout (onTimeoutChange input st) = Num 1)
  /\ (forall z, parseInt input = Num z -> (1 <= z <= 300)%Z ->
      requestTimeout (onTimeoutChange input st) = Num z).
Proof.
  rewrite onTimeoutChange_value. repeat split.
  - destruct (parseInt input) as [|z]; [exists 30%Z; split; [reflexivity | lia]|].
    destruct (z =? 0)%Z; [exists 30%Z | exists (Z.max 1 z)]; split;
      try reflexivity; lia.
  - intros ->. reflexivity.
  - intros ->. reflexivity.
  - intros z -> Hz. destruct (Z.eqb_spec z 0); [lia|]. f_equal. lia.
  - intros z -> Hz. destruct (Z.eqb_spec z 0); [lia|]. f_equal. lia.
Qed.

(** The number stored by the retry handler, by what [parseInt] reads. *)
Lemma onRetryChange_value (input : string) (st : State) :
  retryCount (onRetryChange input st)
  = match parseInt input with
    | NaN => Num 0
    | Num z => Num (Z.max 0 z)
    end.
Proof.
  unfold onRetryChange, or_else, number_truthy. simpl.
  destruct (parseInt input) as [|z]; [reflexivity|].
  destruct (Z.eqb_spec z 0) as [-> | _]; reflexivity.
Qed.

(** C4.  The retry handler keeps the lower bound of the claim: it never
    stores less than 0, and input that is no number or reads as a
    negative integer (-1) gives 0.  It has no upper bound: input that
    reads as an integer above 10 (50) is stored as it is. *)
Theorem C4_retry_no_upper_clamp (input : string) (st : State) :
  (exists z, retryCount (onRetryChange input st) = Num z /\ (0 <= z)%Z)
  /\ (parseInt input = NaN -> retryCount (onRetryChange input st) = Num 0)
  /\ (forall z, parseInt input = Num z -> (z < 0)%Z ->
      retryCount (onRetryChange input st) = Num 0)
  /\ (forall z, parseInt input = Num z -> (10 < z)%Z ->
      retryCount (onRetryChange input st) = Num z).
Proof.
  rewrite onRetryChange_value. repeat split.
  - destruct (parseInt input) as [|z]; [exists 0%Z | exists (Z.max 0 z)];
      split; try reflexivity; lia.
  - intros ->. reflexivity.
  - intros z -> Hz. f_equal. lia.
  - intros z -> Hz. f_equal. lia.
Qed.

(** C5.  The configuration built by [handleGenerate] has no custom
    headers member, and it is the same configuration whatever headers the
    state holds. *)
Theorem C5_custom_headers_not_passed
    (entries : list SemanticHarEntry) (st : State) :
  cfg_customHeaders (handleGenerate entries st) = None
  /\ (forall hs,
        handleGenerate entries (setCustomHeaders hs st)
        = handleGenerate entries st).
Proof.
  split; [reflexivity|].
  intros hs. unfold handleGenerate, setCustomHeaders. simpl. reflexivity.
Qed.

End customizer.

(** Two headers with the same name, entered through the component's
    operations, and the configuration then built. *)
Example custom_headers_entered :
  let st1 := LoliCodeCustomizer.addCustomHeader
               (LoliCodeCustomizer.addCustomHeader LoliCodeCustomizer.initial) in
  exists st,
    (st2 ← LoliCodeCustomizer.updateCustomHeader 0 LoliCodeCustomizer.FName "X-Trace" st1;
     st3 ← LoliCodeCustomizer.updateCustomHeader 0 LoliCodeCustomizer.FValue "a" st2;
     st4 ← LoliCodeCustomizer.updateCustomHeader 1 LoliCodeCustomizer.FName "X-Trace" st3;
     LoliCodeCustomizer.updateCustomHeader 1 LoliCodeCustomizer.FValue "b" st4)
    = Ok st
    /\ LoliCodeCustomizer.customHeaders st
       = [LoliCodeCustomizer.mkHeader "X-Trace" "a";
          LoliCodeCustomizer.mkHeader "X-Trace" "b"]
    /\ LoliCodeCustomizer.cfg_customHeaders
         (LoliCodeCustomizer.handleGenerate [] st) = None.
Proof. eexists. split; [reflexivity|]. split; reflexivity. Qed.

Lemma C1_empty_selection_selects_all_witness :
  LoliCodeCustomizer.cfg_selectedIndices
    (LoliCodeCustomizer.handleGenerate
       (replicate 5 (mkEntry "entry" "GET" "https://example.test/"))
       LoliCodeCustomizer.initial)
  = [0; 1; 2; 3; 4]%Z
  /\ LoliCodeCustomizer.cfg_selectedIndices
       (LoliCodeCustomizer.handleGenerate []
          (LoliCodeCustomizer.handleSelectCriticalPath
             (Some (mkMatrix [] [3; 1; 4]%Z)) LoliCodeCustomizer.initial))
     = [3; 1; 4]%Z.
Proof.
  split.
  - destruct (C1_empty_selection_selects_all
                (replicate 5 (mkEntry "entry" "GET" "https://example.test/"))
                LoliCodeCustomizer.initial) as [Hempty _].
    destruct Hempty as (_ & _ & _ & Hfive); [reflexivity|].
    apply Hfive. reflexivity.
  - destruct (C1_empty_selection_selects_all []
                (LoliCodeCustomizer.handleSelectCriticalPath
                   (Some (mkMatrix [] [3; 1; 4]%Z)) LoliCodeCustomizer.initial))
      as [_ Hkept].
    apply Hkept. discriminate.
Defined.

(** C1 as stated fails: with no entries at all and the selection
    [3,1,4] left by "Critical Path Only", the Generate button is enabled
    and the configuration built selects [3,1,4], not nothing. *)
Lemma C1_counterexample :
  LoliCodeCustomizer.generateDisabled []
    (LoliCodeCustomizer.handleSelectCriticalPath
       (Some (mkMatrix [] [3; 1; 4]%Z)) LoliCodeCustomizer.initial)
  = false
  /\ LoliCodeCustomizer.cfg_selectedIndices
       (LoliCodeCustomizer.handleGenerate []
          (LoliCodeCustomizer.handleSelectCriticalPath
             (Some (mkMatrix [] [3; 1; 4]%Z)) LoliCodeCustomizer.initial))
     = [3; 1; 4]%Z
  /\ LoliCodeCustomizer.cfg_selectedIndices
       (LoliCodeCustomizer.handleGenerate []
          (LoliCodeCustomizer.handleSelectCriticalPath
             (Some (mkMatrix [] [3; 1; 4]%Z)) LoliCodeCustomizer.initial))
     <> [].
Proof. split; [reflexivity|]. split; [reflexivity | discriminate]. Qed.

Lemma C9_select_critical_path_witness :
  LoliCodeCustomizer.selectedIndices
    (LoliCodeCustomizer.handleSelectCriticalPath
       (Some (mkMatrix [] [3; 1; 4]%Z)) LoliCodeCustomizer.initial)
  = [3; 1; 4]%Z.
Proof.
  apply (C9_select_critical_path (mkMatrix [] [3; 1; 4]%Z)
           LoliCodeCustomizer.initial); [discriminate | reflexivity].
Defined.

Lemma C3_timeout_default_and_floor_witness :
  LoliCodeCustomizer.requestTimeout
    (LoliCodeCustomizer.onTimeoutChange "abc" LoliCodeCustomizer.initial) = Num 30
  /\ LoliCodeCustomizer.requestTimeout
       (LoliCodeCustomizer.onTimeoutChange "-5" LoliCodeCustomizer.initial) = Num 1
  /\ LoliCodeCustomizer.requestTimeout
       (LoliCodeCustomizer.onTimeoutChange "120" LoliCodeCustomizer.initial) = Num 120.
Proof.
  split; [|split].
  - destruct (C3_timeout_default_and_floor "abc" LoliCodeCustomizer.initial)
      as (_ & Hnan & _).
    apply Hnan. reflexivity.
  - destruct (C3_timeout_default_and_floor "-5" LoliCodeCustomizer.initial)
      as (_ & _ & _ & Hneg & _).
    apply (Hneg (-5)%Z); [reflexivity | lia].
  - destruct (C3_timeout_default_and_floor "120" LoliCodeCustomizer.initial)
      as (_ & _ & _ & _ & Hin).
    apply (Hin 120%Z); [reflexivity | lia].
Defined.

Lemma C4_retry_no_upper_clamp_witness :
  LoliCodeCustomizer.retryCount
    (LoliCodeCustomizer.onRetryChange "-1" LoliCodeCustomizer.initial) = Num 0
  /\ LoliCodeCustomizer.retryCount
       (LoliCodeCustomizer.onRetryChange "50" LoliCodeCustomizer.initial) = Num 50.
Proof.
  split.
  - destruct (C4_retry_no_upper_clamp "-1" LoliCodeCustomizer.initial)
      as (_ & _ & Hneg & _).
    apply (Hneg (-1)%Z); [reflexivity | lia].
  - destruct (C4_retry_no_upper_clamp "50" LoliCodeCustomizer.initial)
      as (_ & _ & _ & Hbig).
    apply (Hbig 50%Z); [reflexivity | lia].
Defined.

(** C3 as stated fails: the input -5 is stored as 1, not as 30. *)
Lemma C3_timeout_counterexample :
  LoliCodeCustomizer.requestTimeout
    (LoliCodeCustomizer.onTimeoutChange "-5" LoliCodeCustomizer.initial) = Num 1
  /\ LoliCodeCustomizer.requestTimeout
       (LoliCodeCustomizer.onTimeoutChange "-5" LoliCodeCustomizer.initial) <> Num 30.
Proof. split; [reflexivity | discriminate]. Qed.

(** ** Entry labels of DependencyGraph *)

Lemma string_length_app (s1 s2 : string) :
  String.length (s1 +:+ s2) = String.length s1 + String.length s2.
Proof. induction s1 as [|c s1 IH]; simpl; [reflexivity | rewrite IH; reflexivity]. Qed.

Section labels.
Import DependencyGraph.
Variable parseURL : string -> option URL.

(** No entry at the index: the label has no method in it. *)
Lemma getEntryLabel_absent (entries : list SemanticHarEntry) (index : Z) :
  entry_at entries index = None ->
  getEntryLabel parseURL entries index = Ok ("Request #" +:+ pretty index).
Proof. intros H. unfold getEntryLabel. rewrite H. reflexivity. Qed.

(** The URL parser throws: the catch block answers. *)
Lemma getEntryLabel_unparsed (entries : list SemanticHarEntry) (index : Z)
    (e : SemanticHarEntry) :
  entry_at entries index = Some e ->
  parseURL (request_url e) = None ->
  getEntryLabel parseURL entries index
  = Ok (request_method e +:+ " Request #" +:+ pretty index).
Proof.
  intros He Hp. unfold getEntryLabel, new_URL. rewrite He, Hp. reflexivity.
Qed.

(** The URL parses: method and last path segment, or "/" when that
    segment is empty. *)
Lemma getEntryLabel_parsed (entries : list SemanticHarEntry) (index : Z)
    (e : SemanticHarEntry) (u : URL) :
  entry_at entries index = Some e ->
  parseURL (request_url e) = Some u ->
  getEntryLabel parseURL entries index
  = Ok (request_method e +:+ " " +:+ pop_or (split "/" (pathname u)) "/").
Proof.
  intros He Hp. unfold getEntryLabel, new_URL. rewrite He, Hp. reflexivity.
Qed.

(** C6, amended.  [getEntryLabel] returns a label for every entries array
    and every index and never throws.  With no entry at the index the
    label is "Request #<n>", without a method; when the entry's URL does
    not parse (as "not a url" does not, having no scheme) it is
    "<METHOD> Request #<n>"; when it parses it is the method and the last
    path segment.  <n> is a number in decimal. *)
Theorem C6_label_total (entries : list SemanticHarEntry) (index : Z) :
  exists label,
    getEntryLabel parseURL entries index = Ok label
    /\ (entry_at entries index = None ->
        exists n : Z, label = "Request #" +:+ pretty n)
    /\ (forall e, entry_at entries index = Some e ->
        parseURL (request_url e) = None ->
        exists n : Z, label = request_method e +:+ " Request #" +:+ pretty n)
    /\ (forall e, entry_at entries index = Some e ->
        url_parser_sound parseURL ->
        request_url e = "not a url" ->
        exists n : Z, label = request_method e +:+ " Request #" +:+ pretty n)
    /\ (forall e u, entry_at entries index = Some e ->
        parseURL (request_url e) = Some u ->
        label = request_method e +:+ " " +:+ pop_or (split "/" (pathname u)) "/").
Proof.
  destruct (entry_at entries index) as [e|] eqn:He.
  - destruct (parseURL (request_url e)) as [u|] eqn:Hp.
    + eexists. split; [apply (getEntryLabel_parsed _ _ e u He Hp)|].
      split; [discriminate|]. split; [|split].
      * intros e' [= <-] Hnone. congruence.
      * intros e' [= <-] Hsound Hurl.
        rewrite Hsound in Hp; [discriminate | rewrite Hurl; reflexivity].
      * intros e' u' [= <-] Hsome. congruence.
    + eexists. split; [apply (getEntryLabel_unparsed _ _ e He Hp)|].
      split; [discriminate|]. split; [|split].
      * intros e' [= <-] _. exists index. reflexivity.
      * intros e' [= <-] _ _. exists index. reflexivity.
      * intros e' u' [= <-] Hsome. congruence.
  - eexists. split; [apply (getEntryLabel_absent _ _ He)|].
    split; [intros _; exists index; reflexivity|].
    split; [|split]; intros; discriminate.
Qed.

End labels.

Lemma C6_label_total_witness :
  let parse := fun s => if has_scheme s then Some (mkURL "" "/") else None in
  exists label n,
    DependencyGraph.getEntryLabel parse [mkEntry "entry-0" "GET" "not a url"] 0
    = Ok label
    /\ label = "GET" +:+ " Request #" +:+ pretty (n : Z).
Proof.
  intros parse.
  destruct (C6_label_total parse [mkEntry "entry-0" "GET" "not a url"] 0)
    as (label & Hok & _ & _ & Hnot & _).
  destruct (Hnot (mkEntry "entry-0" "GET" "not a url")) as [n Hn].
  - reflexivity.
  - intros s Hs. unfold parse. rewrite Hs. reflexivity.
  - reflexivity.
  - exists label, n. split; [exact Hok | exact Hn].
Defined.

(** C6 as stated fails: with no entry at the index the label is
    "Request #7", which is not a method followed by " Request #" and a
    number, whatever the method and the number. *)
Lemma C6_label_counterexample :
  DependencyGraph.getEntryLabel (fun _ => None)
    [mkEntry "entry-0" "GET" "not a url"] 7
  = Ok "Request #7"
  /\ forall method n : string, "Request #7" <> method +:+ " Request #" +:+ n.
Proof.
  split; [reflexivity|].
  intros method n H.
  pose proof (f_equal String.length H) as Hlen.
  rewrite !string_length_app in Hlen. simpl in Hlen.
  destruct method; [|simpl in Hlen; lia].
  discriminate H.
Qed.

(** The labels of the component on a small capture. *)
Example labels_sample :
  let parse := fun s =>
    if String.eqb s "https://example.test/api/login"
    then Some (mkURL "example.test" "/api/login")
    else if String.eqb s "https://example.test/"
    then Some (mkURL "example.test" "/")
    else None in
  let entries := [mkEntry "entry-0" "POST" "https://example.test/api/login";
                  mkEntry "entry-1" "GET" "https://example.test/";
                  mkEntry "entry-2" "GET" "not a url"] in
  DependencyGraph.getEntryLabel parse entries 0 = Ok "POST login"
  /\ DependencyGraph.getEntryLabel parse entries 1 = Ok "GET /"
  /\ DependencyGraph.getEntryLabel parse entries 2 = Ok "GET Request #2"
  /\ DependencyGraph.getEntryLabel parse entries 3 = Ok "Request #3"
  /\ DependencyGraph.getEntryLabel parse entries (-1) = Ok "Request #-1".
Proof. repeat split; reflexivity. Qed.

(** ** Normalisation in HARUploader *)

Section property_reads.
Import HARUploader.

(** Reading a member of anything but [null] and [undefined] succeeds. *)
Lemma get_non_nullish (v : jsval) (k : string) :
  is_nullish v = false -> get v k = Ok (prop v k).
Proof.
  intros Hv. unfold prop.
  destruct v; try discriminate; simpl;
    repeat (match goal with |- context [if ?b then _ else _] => destruct b end);
    reflexivity.
Qed.

Lemma truthy_non_nullish (v : jsval) : truthy v = true -> is_nullish v = false.
Proof. destruct v; simpl; intros H; (discriminate || reflexivity). Qed.

Lemma get_Ok_non_nullish (v x : jsval) (k : string) :
  get v k = Ok x -> is_nullish v = false.
Proof. destruct v; simpl; intros H; (discriminate || reflexivity). Qed.

Lemma get_Ok_prop (v x : jsval) (k : string) : get v k = Ok x -> prop v k = x.
Proof. intros H. unfold prop. rewrite H. reflexivity. Qed.

Lemma request_body_value (rq : jsval) :
  is_nullish rq = false ->
  exists b, request_body rq = Ok b
            /\ (is_Some b <-> truthy (prop rq "postData") = true).
Proof.
  intros Hrq. unfold request_body.
  rewrite (get_non_nullish rq "postData" Hrq). simpl.
  destruct (truthy (prop rq "postData")) eqn:Hpd.
  - pose proof (truthy_non_nullish _ Hpd) as Hnn.
    rewrite (get_non_nullish _ "mimeType" Hnn). simpl.
    rewrite (get_non_nullish _ "text" Hnn). simpl.
    rewrite (get_non_nullish rq "bodySize" Hrq). simpl.
    eexists. split; [reflexivity|]. split; [reflexivity | eauto].
  - eexists. split; [reflexivity|].
    split; [intros [? ?]; discriminate | discriminate].
Qed.

Lemma response_content_value (rs : jsval) :
  is_nullish rs = false ->
  exists b, response_content rs = Ok b
            /\ (is_Some b <-> truthy (prop rs "content") = true).
Proof.
  intros Hrs. unfold response_content.
  rewrite (get_non_nullish rs "content" Hrs). simpl.
  destruct (truthy (prop rs "content")) eqn:Hct.
  - pose proof (truthy_non_nullish _ Hct) as Hnn.
    rewrite (get_non_nullish _ "mimeType" Hnn). simpl.
    rewrite (get_non_nullish _ "text" Hnn). simpl.
    rewrite (get_non_nullish _ "size" Hnn). simpl.
    eexists. split; [reflexivity|]. split; [reflexivity | eauto].
  - eexists. split; [reflexivity|].
    split; [intros [? ?]; discriminate | discriminate].
Qed.

(** The callback succeeds on a valid entry and yields what [normalises]
    says. *)
Lemma mapEntry_valid (entry : jsval) (i : nat) :
  valid_entry entry ->
  exists se, mapEntry entry i = Ok se /\ normalises entry i se.
Proof.
  intros (rq & rs & Hrq & Hrqn & Hrs & Hrsn).
  pose proof (get_Ok_non_nullish _ _ _ Hrq) as Hen.
  destruct (request_body_value rq Hrqn) as (rb & Hrb & Hrbs).
  destruct (response_content_value rs Hrsn) as (cb & Hcb & Hcbs).
  unfold mapEntry.
  rewrite (get_non_nullish entry "startedDateTime" Hen). simpl.
  rewrite (get_non_nullish entry "time" Hen). simpl.
  rewrite Hrq. simpl.
  rewrite (get_non_nullish rq "method" Hrqn). simpl.
  rewrite (get_non_nullish rq "url" Hrqn). simpl.
  rewrite (get_non_nullish rq "headers" Hrqn). simpl.
  rewrite Hrb. simpl.
  rewrite (get_non_nullish rq "cookies" Hrqn). simpl.
  rewrite (get_non_nullish rq "queryString" Hrqn). simpl.
  rewrite Hrs. simpl.
  rewrite (get_non_nullish rs "status" Hrsn). simpl.
  rewrite (get_non_nullish rs "statusText" Hrsn). simpl.
  rewrite (get_non_nullish rs "headers" Hrsn). simpl.
  rewrite Hcb. simpl.
  rewrite (get_non_nullish rs "cookies" Hrsn). simpl.
  eexists. split; [reflexivity|].
  unfold normalises. simpl.
  rewrite (get_Ok_prop _ _ _ Hrq), (get_Ok_prop _ _ _ Hrs).
  repeat split; try reflexivity; (apply Hrbs || apply Hcbs).
Qed.
End property_reads.

Section normalisation.
Import HARUploader.

(** The identifier given to position [i]. *)
Lemma entry_id_inj (i j : nat) :
  "entry-" +:+ pretty i = "entry-" +:+ pretty j -> i = j.
Proof.
  intros H. apply (inj (String.app "entry-")) in H.
  exact (inj pretty _ _ H).
Qed.

(** The mapping over valid entries: one semantic entry per raw entry, at
    the same position, identifiers counted from [k]. *)
Lemma map_indexed_valid (k : nat) (items : list jsval) :
  Forall valid_entry items ->
  exists ses,
    map_indexed mapEntry k items = Ok ses
    /\ length ses = length items
    /\ entryId <$> ses
       = (fun i => "entry-" +:+ pretty i) <$> seq k (length items)
    /\ (forall i entry, items !! i = Some entry ->
        exists se, ses !! i = Some se /\ normalises entry (k + i) se).
Proof.
  intros Hall. revert k.
  induction Hall as [|entry items Hentry _ IH]; intros k.
  - exists []. repeat split; try reflexivity.
    intros i entry Hi. rewrite lookup_nil in Hi. discriminate.
  - destruct (mapEntry_valid entry k Hentry) as (se & Hse & Hnorm).
    destruct (IH (S k)) as (ses & Hses & Hlen & Hids & Hpos).
    exists (se :: ses).
    split; [simpl; rewrite Hse; simpl; rewrite Hses; reflexivity|].
    split; [simpl; rewrite Hlen; reflexivity|]. split.
    + cbn [length seq]. rewrite !fmap_cons, Hids. f_equal. apply Hnorm.
    + intros [|i] e Hi; simpl in Hi.
      * injection Hi as <-. exists se. rewrite Nat.add_0_r. auto.
      * destruct (Hpos i e Hi) as (se' & Hl & Hn).
        exists se'. split; [exact Hl|].
        replace (k + S i) with (S k + i) by lia. exact Hn.
Qed.

Lemma entry_ids_NoDup (k n : nat) :
  NoDup ((fun i => "entry-" +:+ pretty i) <$> seq k n).
Proof.
  apply NoDup_fmap_2_strong; [|apply NoDup_seq].
  intros i j _ _. apply entry_id_inj.
Qed.

(** Validation and mapping succeed on a valid HAR value. *)
Lemma semanticEntries_valid (harData : jsval) (items : list jsval) :
  valid_har harData items ->
  exists ses,
    semanticEntries harData = Ok ses
    /\ length ses = length items
    /\ entryId <$> ses
       = (fun i => "entry-" +:+ pretty i) <$> seq 0 (length items)
    /\ (forall i entry, items !! i = Some entry ->
        exists se, ses !! i = Some se /\ normalises entry i se).
Proof.
  intros (log & Hlog & Hentries & Hall).
  destruct (map_indexed_valid 0 items Hall) as (ses & Hses & Hrest).
  exists ses. split; [|exact Hrest].
  unfold semanticEntries. rewrite Hlog. simpl.
  assert (truthy log = true) as Hlt.
  { destruct log; simpl in Hentries; try discriminate; reflexivity. }
  rewrite Hlt. simpl. rewrite Hentries. simpl. exact Hses.
Qed.

(** Without a [log] holding an [entries] array the [try] block throws. *)
Lemma semanticEntries_lacking (harData : jsval) :
  lacks_entries harData ->
  exists err, semanticEntries harData = Throw err.
Proof.
  intros Hlack. unfold semanticEntries.
  destruct (get harData "log") as [log|err] eqn:Hlog; simpl; [|eauto].
  destruct (truthy log) eqn:Hlt; simpl; [|eauto].
  rewrite (get_non_nullish log "entries" (truthy_non_nullish _ Hlt)). simpl.
  destruct (truthy (prop log "entries")) eqn:Het; simpl; [|eauto].
  destruct (prop log "entries") as [| |b|n|s|items|props|f] eqn:Hentries;
    simpl; eauto.
  exfalso. apply (Hlack log items). split; [exact Hlog|].
  rewrite (get_non_nullish log "entries" (truthy_non_nullish _ Hlt)).
  rewrite Hentries. reflexivity.
Qed.

(** The message when [log] or [log.entries] is missing or falsy. *)
Lemma semanticEntries_invalid_format (harData log : jsval) :
  get harData "log" = Ok log ->
  truthy log = false \/ truthy (prop log "entries") = false ->
  semanticEntries harData = throw_Error "Invalid HAR file format".
Proof.
  intros Hlog Hfalsy. unfold semanticEntries. rewrite Hlog. simpl.
  destruct (truthy log) eqn:Hlt; simpl; [|reflexivity].
  destruct Hfalsy as [Hf | Hf]; [discriminate|].
  rewrite (get_non_nullish log "entries" (truthy_non_nullish _ Hlt)). simpl.
  rewrite Hf. reflexivity.
Qed.

Context {Store : Type}.
Variable JSON_parse : string -> result jsval.
Variable setHarEntries : list SemanticEntry -> Store -> Store.

(** When the [try] block completes, its entries are dispatched and no
    error is shown. *)
Lemma processHARFile_success (text : string) (w : World Store)
    (ses : list SemanticEntry) :
  (harData ← JSON_parse text; semanticEntries harData) = Ok ses ->
  processHARFile JSON_parse setHarEntries text w
  = mkWorld false None (setHarEntries ses (store w)) (console w).
Proof. intros H. unfold processHARFile. rewrite H. reflexivity. Qed.

(** When anything in the [try] block throws, nothing is dispatched: the
    store is as before and the error is shown. *)
Lemma processHARFile_failure (text : string) (w : World Store) (err : thrown) :
  (harData ← JSON_parse text; semanticEntries harData) = Throw err ->
  processHARFile JSON_parse setHarEntries text w
  = mkWorld false (Some (errorMessage err)) (store w) (console w ++ [err]).
Proof. intros H. unfold processHARFile. rewrite H. reflexivity. Qed.

(** C7.  For a file that parses to a valid HAR value with the entries
    [items], [processHARFile] dispatches exactly [length items] semantic
    entries and shows no error.  The entry at position i is made from the
    raw entry at position i; the identifiers are entry-0 ... entry-(N-1)
    in this order and pairwise distinct; [tokens] and [dependencies] are
    empty; the request carries a body descriptor exactly when [postData]
    is there (truthy), the response exactly when [content] is. *)
Theorem C7_normalisation (text : string) (w : World Store)
    (harData : jsval) (items : list jsval) :
  JSON_parse text = Ok harData ->
  valid_har harData items ->
  exists ses,
    semanticEntries harData = Ok ses
    /\ store (processHARFile JSON_parse setHarEntries text w)
       = setHarEntries ses (store w)
    /\ error (processHARFile JSON_parse setHarEntries text w) = None
    /\ isProcessing (processHARFile JSON_parse setHarEntries text w) = false
    /\ length ses = length items
    /\ entryId <$> ses
       = (fun i => "entry-" +:+ pretty i) <$> seq 0 (length items)
    /\ NoDup (entryId <$> ses)
    /\ (forall i entry, items !! i = Some entry ->
        exists se, ses !! i = Some se /\ normalises entry i se).
Proof.
  intros Hparse Hvalid.
  destruct (semanticEntries_valid harData items Hvalid)
    as (ses & Hses & Hlen & Hids & Hpos).
  exists ses.
  rewrite (processHARFile_success text w ses)
    by (rewrite Hparse; simpl; exact Hses).
  simpl. repeat split; try assumption.
  rewrite Hids. apply entry_ids_NoDup.
Qed.

(** C8.  When the text is not JSON ([JSON.parse] throws), or parses to a
    value without a [log] holding an [entries] array, [processHARFile]
    shows an error message and dispatches nothing: the store is exactly
    as before.  The message is the one of the thrown error; where [log]
    or [log.entries] is missing or falsy it is "Invalid HAR file
    format". *)
Theorem C8_rejects_without_publishing (text : string) (w : World Store) :
  (exists err, JSON_parse text = Throw err)
  \/ (exists harData, JSON_parse text = Ok harData /\ lacks_entries harData) ->
  exists err,
    (harData ← JSON_parse text; semanticEntries harData) = Throw err
    /\ error (processHARFile JSON_parse setHarEntries text w)
       = Some (errorMessage err)
    /\ store (processHARFile JSON_parse setHarEntries text w) = store w
    /\ isProcessing (processHARFile JSON_parse setHarEntries text w) = false
    /\ (JSON_parse text = Throw err
        \/ exists harData,
             JSON_parse text = Ok harData /\ semanticEntries harData = Throw err)
    /\ (forall harData log,
          JSON_parse text = Ok harData ->
          get harData "log" = Ok log ->
          truthy log = false \/ truthy (prop log "entries") = false ->
          errorMessage err = "Invalid HAR file format").
Proof.
  intros Hbad.
  assert (exists err,
            (harData ← JSON_parse text; semanticEntries harData) = Throw err
            /\ (JSON_parse text = Throw err
                \/ exists harData,
                     JSON_parse text = Ok harData
                     /\ semanticEntries harData = Throw err))
    as (err & Hthrow & Hwhere).
  { destruct Hbad as [[err Herr] | (harData & Hparse & Hlack)].
    - exists err. rewrite Herr. split; [reflexivity | left; reflexivity].
    - destruct (semanticEntries_lacking harData Hlack) as [err Herr].
      exists err. rewrite Hparse. simpl.
      split; [exact Herr | right; exists harData; auto]. }
  exists err. rewrite (processHARFile_failure text w err Hthrow). simpl.
  repeat split; try assumption.
  intros harData log Hparse Hlog Hfalsy.
  rewrite Hparse in Hthrow. simpl in Hthrow.
  rewrite (semanticEntries_invalid_format harData log Hlog Hfalsy) in Hthrow.
  injection Hthrow as <-. reflexivity.
Qed.

(** All or nothing: either the store is as before, or it received the
    complete list the [try] block produced. *)
Lemma processHARFile_all_or_nothing (text : string) (w : World Store) :
  store (processHARFile JSON_parse setHarEntries text w) = store w
  \/ exists ses,
       (harData ← JSON_parse text; semanticEntries harData) = Ok ses
       /\ store (processHARFile JSON_parse setHarEntries text w)
          = setHarEntries ses (store w).
Proof.
  destruct (harData ← JSON_parse text; semanticEntries harData)
    as [ses|err] eqn:Hrun.
  - right. exists ses. rewrite (processHARFile_success text w ses Hrun). auto.
  - left. rewrite (processHARFile_failure text w err Hrun). reflexivity.
Qed.

End normalisation.

(** The sample capture is published in full, replacing what was there. *)
Example sample_upload :
  let w := HARUploader.processHARFile HARUploader.sample_JSON_parse
             HARUploader.replace_entries HARUploader.sample_text
             HARUploader.sample_world in
  HARUploader.entryId <$> HARUploader.store w = ["entry-0"; "entry-1"]
  /\ (HARUploader.method ∘ HARUploader.request) <$> HARUploader.store w
     = [VStr "POST"; VStr "GET"]
  /\ (from_option (fun _ => true) false ∘ HARUploader.body ∘ HARUploader.request)
     <$> HARUploader.store w
     = [true; false]
  /\ (from_option (fun _ => true) false ∘ HARUploader.response_body
      ∘ HARUploader.response) <$> HARUploader.store w
     = [false; true]
  /\ HARUploader.error w = None
  /\ HARUploader.isProcessing w = false.
Proof. vm_compute. repeat split; reflexivity. Qed.

(** Rejected files: text that is no JSON, [null], an object without a
    log, and a log that is an array.  The store keeps its entry. *)
Example sample_rejections :
  let run text :=
    HARUploader.processHARFile HARUploader.sample_JSON_parse
      HARUploader.replace_entries text HARUploader.sample_world in
  HARUploader.error (run "not json") = Some "Unexpected token in JSON"
  /\ HARUploader.error (run "null")
     = Some "Cannot read properties of null (reading 'log')"
  /\ HARUploader.error (run "{}") = Some "Invalid HAR file format"
  /\ HARUploader.error (run "[]") = Some "Invalid HAR file format"
  /\ HARUploader.semanticEntries (VObj [("log", VArr [])])
     = TypeError "harData.log.entries.map is not a function"
  /\ (forall text,
        In text ["not json"; "null"; "{}"; "[]"] ->
        HARUploader.store (run text) = HARUploader.store HARUploader.sample_world).
Proof.
  repeat split; try reflexivity.
  intros text [<- | [<- | [<- | [<- | []]]]]; reflexivity.
Qed.

Lemma C7_normalisation_witness :
  exists ses,
    HARUploader.store
      (HARUploader.processHARFile HARUploader.sample_JSON_parse
         HARUploader.replace_entries HARUploader.sample_text
         HARUploader.sample_world)
    = ses
    /\ length ses = 2
    /\ HARUploader.entryId <$> ses = ["entry-0"; "entry-1"].
Proof.
  destruct (C7_normalisation HARUploader.sample_JSON_parse
              HARUploader.replace_entries HARUploader.sample_text
              HARUploader.sample_world HARUploader.sample_har
              [VObj [("request", VObj [("method", VStr "POST");
                                       ("url", VStr "https://example.test/login");
                                       ("postData", VObj [("mimeType", VStr "text/plain");
                                                          ("text", VStr "u=1")])]);
                     ("response", VObj [("status", VNum (Num 200))])];
               VObj [("request", VObj [("method", VStr "GET");
                                       ("url", VStr "https://example.test/")]);
                     ("response", VObj [("status", VNum (Num 204));
                                        ("content", VObj [("size", VNum (Num 0))])])]])
    as (ses & _ & Hstore & _ & _ & Hlen & Hids & _).
  - reflexivity.
  - eexists. split; [reflexivity|]. split; [reflexivity|].
    repeat constructor; eexists _, _; repeat split; reflexivity.
  - exists ses. split; [exact Hstore|]. split; [exact Hlen | exact Hids].
Defined.

Lemma C8_rejects_without_publishing_witness :
  HARUploader.error
    (HARUploader.processHARFile HARUploader.sample_JSON_parse
       HARUploader.replace_entries "{}" HARUploader.sample_world)
  = Some "Invalid HAR file format"
  /\ HARUploader.store
       (HARUploader.processHARFile HARUploader.sample_JSON_parse
          HARUploader.replace_entries "{}" HARUploader.sample_world)
     = HARUploader.store HARUploader.sample_world.
Proof.
  destruct (C8_rejects_without_publishing HARUploader.sample_JSON_parse
              HARUploader.replace_entries "{}" HARUploader.sample_world)
    as (err & _ & Herr & Hstore & _ & _ & Hmsg).
  - right. exists (VObj []). split; [reflexivity|].
    intros log items [Hlog Hentries].
    injection Hlog as <-. discriminate Hentries.
  - split; [|exact Hstore].
    rewrite Herr. f_equal.
    apply (Hmsg (VObj []) VUndefined); [reflexivity | reflexivity | left; reflexivity].
Defined.

(* ===================================================================== *)
(** * Part III: further properties of the components                      *)
(* ===================================================================== *)

(** ** Splitting and joining *)

Section split_facts.
Variable sep : ascii.

Lemma split_nonempty (s : string) : split sep s <> [].
Proof.
  destruct s as [|c r]; simpl; [discriminate|].
  destruct (Ascii.eqb c sep); [discriminate|].
  destruct (split sep r); discriminate.
Qed.

(** Joining the pieces with the separator gives the string back. *)
Lemma join_split (s : string) : join (String sep "") (split sep s) = s.
Proof.
  induction s as [|c r IH]; [reflexivity|].
  pose proof (split_nonempty r) as Hne.
  simpl. destruct (Ascii.eqb_spec c sep) as [-> | Hc].
  - destruct (split sep r) as [|h t]; [congruence|].
    change (join (String sep "") ("" :: h :: t))
      with (String sep (join (String sep "") (h :: t))).
    rewrite IH. reflexivity.
  - destruct (split sep r) as [|h t]; [congruence|].
    rewrite <- IH. destruct t; reflexivity.
Qed.

(** No piece contains the separator. *)
Lemma split_pieces (s : string) :
  Forall (fun piece => count_char sep piece = 0) (split sep s).
Proof.
  induction s as [|c r IH]; simpl; [repeat constructor|].
  pose proof (split_nonempty r) as Hne.
  destruct (Ascii.eqb_spec c sep) as [-> | Hc].
  - constructor; [reflexivity | exact IH].
  - destruct (split sep r) as [|h t]; [congruence|].
    inversion IH as [|? ? Hh Ht]; subst. constructor; [|exact Ht].
    simpl. destruct (Ascii.eqb_spec c sep); [congruence | exact Hh].
Qed.

(** There is one piece more than there are separators. *)
Lemma length_split (s : string) :
  length (split sep s) = S (count_char sep s).
Proof.
  induction s as [|c r IH]; simpl; [reflexivity|].
  pose proof (split_nonempty r) as Hne.
  destruct (Ascii.eqb c sep); simpl; [rewrite IH; reflexivity|].
  destruct (split sep r) as [|h t]; [congruence|]. simpl in *. exact IH.
Qed.

(** The last piece is what follows the last separator. *)
Lemma last_split (s : string) :
  exists pre piece,
    last (split sep s) = Some piece
    /\ s = pre +:+ piece
    /\ count_char sep piece = 0
    /\ (pre = "" \/ exists p, pre = p +:+ String sep "").
Proof.
  induction s as [|c r IH].
  - exists "", "". simpl. auto.
  - destruct IH as (pre & piece & Hlast & Hs & Hcount & Hpre).
    pose proof (split_nonempty r) as Hne.
    simpl. destruct (Ascii.eqb_spec c sep) as [-> | Hc].
    + destruct (split sep r) as [|h t] eqn:Hsplit; [congruence|].
      exists (String sep pre), piece.
      split; [exact Hlast|]. split; [rewrite Hs; reflexivity|].
      split; [exact Hcount|]. right.
      destruct Hpre as [-> | [p ->]]; [exists ""; reflexivity|].
      exists (String sep p). reflexivity.
    + destruct (split sep r) as [|h t] eqn:Hsplit; [congruence|].
      destruct t as [|h' t'].
      * simpl in Hlast. injection Hlast as <-.
        assert (pre = "") as ->.
        { destruct Hpre as [-> | [p ->]]; [reflexivity|].
          exfalso. clear -Hs Hcount Hsplit.
          assert (count_char sep r = 0) as Hr.
          { pose proof (length_split r) as Hl. rewrite Hsplit in Hl.
            simpl in Hl. lia. }
          rewrite Hs in Hr. clear -Hr.
          induction p as [|a p IHp]; simpl in Hr.
          - rewrite Ascii.eqb_refl in Hr. discriminate.
          - apply IHp. lia. }
        exists "", (String c h). simpl in Hs. subst r.
        split; [reflexivity|]. split; [reflexivity|].
        split; [|left; reflexivity].
        simpl. destruct (Ascii.eqb_spec c sep); [congruence | exact Hcount].
      * exists (String c pre), piece.
        split; [exact Hlast|]. split; [rewrite Hs; reflexivity|].
        split; [exact Hcount|]. right.
        destruct Hpre as [-> | [p ->]].
        -- exfalso.
           assert (r = piece) as Hr by (rewrite Hs; reflexivity).
           pose proof (length_split r) as Hl.
           rewrite Hsplit, Hr, Hcount in Hl. simpl in Hl. lia.
        -- exists (String c p). reflexivity.
Qed.
End split_facts.

Lemma string_app_empty_r (s : string) : s +:+ "" = s.
Proof.
  induction s as [|c s IH]; [reflexivity|].
  change (String c (s +:+ "") = String c s). f_equal. exact IH.
Qed.

Lemma count_char_le_length (c : ascii) (s : string) :
  count_char c s <= String.length s.
Proof.
  induction s as [|c' s IH]; simpl; [lia|].
  destruct (Ascii.eqb c' c); lia.
Qed.

Lemma prefix_length (p s : string) :
  String.prefix p s = true -> String.length p <= String.length s.
Proof.
  revert p. induction s as [|c s IH]; intros [|a p]; simpl; try lia; try discriminate.
  destruct (ascii_dec a c); [|discriminate].
  intros H. apply IH in H. lia.
Qed.

(** ** The label of a parsed URL *)

Section label_segment.
Import DependencyGraph.
Variable parseURL : string -> option URL.

(** X1.  When the URL parses, the label is the method, a space and a
    segment that is never empty: "/" when the path is empty or ends in a
    slash, otherwise the part of the path after its last slash, which
    holds no slash itself. *)
Theorem label_last_segment (entries : list SemanticHarEntry) (index : Z)
    (e : SemanticHarEntry) (u : URL) :
  entry_at entries index = Some e ->
  parseURL (request_url e) = Some u ->
  exists seg,
    getEntryLabel parseURL entries index
    = Ok (request_method e +:+ " " +:+ seg)
    /\ seg <> ""
    /\ ((seg = "/" /\ (pathname u = "" \/ exists p, pathname u = p +:+ "/"))
        \/ (count_char "/" seg = 0
            /\ exists pre, pathname u = pre +:+ seg
                           /\ (pre = "" \/ exists p, pre = p +:+ "/"))).
Proof.
  intros He Hu.
  rewrite (getEntryLabel_parsed parseURL entries index e u He Hu).
  destruct (last_split "/" (pathname u)) as (pre & piece & Hlast & Hpath & Hcount & Hpre).
  unfold pop_or. rewrite Hlast.
  destruct (String.eqb_spec piece "") as [-> | Hpiece].
  - exists "/". split; [reflexivity|]. split; [discriminate|]. left.
    split; [reflexivity|]. rewrite string_app_empty_r in Hpath. subst pre.
    exact Hpre.
  - exists piece. split; [reflexivity|]. split; [exact Hpiece|]. right.
    split; [exact Hcount|]. exists pre. auto.
Qed.
End label_segment.

Lemma label_last_segment_witness :
  let parse := fun s =>
    if String.eqb s "https://example.test/api/login"
    then Some (mkURL "example.test" "/api/login") else None in
  exists seg,
    DependencyGraph.getEntryLabel parse
      [mkEntry "entry-0" "POST" "https://example.test/api/login"] 0
    = Ok ("POST" +:+ " " +:+ seg)
    /\ seg <> "".
Proof.
  intros parse.
  destruct (label_last_segment parse
              [mkEntry "entry-0" "POST" "https://example.test/api/login"] 0
              (mkEntry "entry-0" "POST" "https://example.test/api/login")
              (mkURL "example.test" "/api/login"))
    as (seg & Hlabel & Hne & _); [reflexivity | reflexivity |].
  exists seg. split; [exact Hlabel | exact Hne].
Defined.

(** ** The statistics of LoliCodePreview *)

Section preview_stats.

Lemma blob_size_ge_length (code : string) :
  String.length code <= LoliCodePreview.blob_size code.
Proof.
  induction code as [|c code IH]; simpl; [lia|].
  destruct (nat_of_ascii c <? 128)%nat; lia.
Qed.

Lemma blob_size_ascii (code : string) :
  (forall c, In c (list_ascii_of_string code) -> nat_of_ascii c < 128) ->
  LoliCodePreview.blob_size code = String.length code.
Proof.
  induction code as [|c code IH]; intros Hascii; simpl; [reflexivity|].
  rewrite IH by (intros c' Hc'; apply Hascii; right; exact Hc').
  destruct (Nat.ltb_spec (nat_of_ascii c) 128) as [_ | Hge]; [reflexivity|].
  pose proof (Hascii c (or_introl eq_refl)). lia.
Qed.

(** Every match takes seven characters of its own. *)
Lemma count_REQUEST_bound (code : string) (skip : nat) :
  7 * LoliCodePreview.count_REQUEST code skip <= String.length code - skip.
Proof.
  revert skip. induction code as [|c code IH]; intros skip; [simpl; lia|].
  cbn [LoliCodePreview.count_REQUEST].
  destruct skip as [|k].
  - destruct (String.prefix "REQUEST" (String c code)) eqn:Hp.
    + apply prefix_length in Hp. simpl in Hp.
      specialize (IH 6). simpl String.length. lia.
    + specialize (IH 0). simpl String.length. lia.
  - specialize (IH k). simpl String.length. lia.
Qed.

(** X2.  For a script that is not empty the line count is one more than
    the number of line feeds, so at least 1; for the empty script all
    three statistics are 0. *)
Theorem stats_lines (code : string) :
  (code = "" -> LoliCodePreview.stats code = LoliCodePreview.mkStats 0 0 0)
  /\ (code <> "" ->
      LoliCodePreview.lines (LoliCodePreview.stats code)
      = S (count_char newline code)).
Proof.
  split.
  - intros ->. reflexivity.
  - intros Hne. unfold LoliCodePreview.stats.
    destruct (String.eqb_spec code ""); [congruence|]. simpl.
    apply length_split.
Qed.

(** X3.  The statistics are consistent with each other: the byte size
    is at least the length of the script, and exactly the length when
    the script is plain ASCII; seven times the request count is at most
    the length (each match of REQUEST takes seven characters of its
    own); and there is at most one line more than characters. *)
Theorem stats_bounds (code : string) :
  String.length code <= LoliCodePreview.size (LoliCodePreview.stats code)
  /\ ((forall c, In c (list_ascii_of_string code) -> nat_of_ascii c < 128) ->
      LoliCodePreview.size (LoliCodePreview.stats code) = String.length code)
  /\ 7 * LoliCodePreview.requests (LoliCodePreview.stats code)
     <= String.length code
  /\ LoliCodePreview.lines (LoliCodePreview.stats code) <= S (String.length code).
Proof.
  unfold LoliCodePreview.stats.
  destruct (String.eqb_spec code "") as [-> | Hne]; simpl;
    [repeat split; try reflexivity; lia|].
  pose proof (blob_size_ge_length code) as Hlo.
  pose proof (count_REQUEST_bound code 0) as Hreq.
  pose proof (count_char_le_length newline code) as Hnl.
  rewrite length_split.
  split; [exact Hlo|]. split; [apply blob_size_ascii|]. split; lia.
Qed.
End preview_stats.

Lemma stats_lines_witness :
  LoliCodePreview.lines
    (LoliCodePreview.stats ("BLOCK:REQUEST" +:+ String newline "ENDBLOCK"))
  = 2.
Proof.
  destruct (stats_lines ("BLOCK:REQUEST" +:+ String newline "ENDBLOCK"))
    as [_ Hlines].
  rewrite Hlines; [reflexivity | discriminate].
Defined.

Lemma stats_bounds_witness :
  LoliCodePreview.size (LoliCodePreview.stats "BLOCK:REQUEST") = 13.
Proof.
  destruct (stats_bounds "BLOCK:REQUEST") as (_ & Hascii & _).
  rewrite Hascii; [reflexivity|].
  intros c Hc. simpl in Hc.
  repeat (destruct Hc as [<- | Hc]; [vm_compute; lia|]). destruct Hc.
Defined.

(** The statistics of a two-request script. *)
Example stats_sample :
  LoliCodePreview.stats
    ("BLOCK:REQUEST" +:+ String newline ("REQUESTREQUEST" +:+ String newline ""))
  = LoliCodePreview.mkStats 3 29 3.
Proof. reflexivity. Qed.

(** ** A row of the request table *)

Section table_row.
Import RequestTableRow.

(** X4.  The URL shown in a row never fails to compute.  A URL that
    parses is shown by its host and its path; one that does not (any
    text without a scheme, such as a relative path) is shown in full
    under the host "invalid". *)
Theorem row_url_total (parseURL : string -> option URL) (entry : SemanticHarEntry) :
  exists host path,
    url parseURL entry = Ok (host, path)
    /\ (forall u, parseURL (request_url entry) = Some u ->
        host = hostname u /\ path = pathname u)
    /\ (parseURL (request_url entry) = None ->
        host = "invalid" /\ path = request_url entry)
    /\ (url_parser_sound parseURL ->
        has_scheme (request_url entry) = false ->
        host = "invalid" /\ path = request_url entry).
Proof.
  unfold url, new_URL.
  destruct (parseURL (request_url entry)) as [u|] eqn:Hp; simpl.
  - exists (hostname u), (pathname u). split; [reflexivity|].
    split; [intros u' [= <-]; auto|]. split; [discriminate|].
    intros Hsound Hscheme. rewrite (Hsound _ Hscheme) in Hp. discriminate.
  - exists "invalid", (request_url entry). split; [reflexivity|].
    split; [discriminate|]. auto.
Qed.

(** X5.  The colour of the status badge: green exactly for 200-299, blue
    exactly for 300-399, yellow exactly for 400-499, and red for every
    other status, among them the informational 1xx codes and [NaN]. *)
Theorem statusColor_classes (status : number) :
  (statusColor status = "bg-green-600"
   <-> exists z, status = Num z /\ (200 <= z < 300)%Z)
  /\ (statusColor status = "bg-blue-600"
      <-> exists z, status = Num z /\ (300 <= z < 400)%Z)
  /\ (statusColor status = "bg-yellow-600"
      <-> exists z, status = Num z /\ (400 <= z < 500)%Z)
  /\ (statusColor status = "bg-red-600"
      <-> status = NaN \/ exists z, status = Num z /\ (z < 200 \/ 500 <= z)%Z).
Proof.
  unfold statusColor, num_ge, num_lt.
  destruct status as [|z]; simpl.
  - repeat split; try discriminate; try (intros (z & Hz & _); discriminate); auto.
  - destruct (Z.leb_spec 200 z), (Z.ltb_spec z 300), (Z.leb_spec 300 z),
      (Z.ltb_spec z 400), (Z.leb_spec 400 z), (Z.ltb_spec z 500); simpl;
      try lia;
      repeat split;
      try discriminate;
      try (intros _; eexists; split; [reflexivity | lia]);
      try (intros (z' & [= <-] & Hz); lia);
      try (intros _; right; eexists; split; [reflexivity | lia]);
      try (intros [Hnan | (z' & [= <-] & Hz)]; [discriminate | lia]).
Qed.
End table_row.

(** ** Selections and custom headers of LoliCodeCustomizer *)

Section customizer_operations.
Import LoliCodeCustomizer.

Lemma state_eta (st : State) :
  {| selectedIndices := selectedIndices st;
     useProxy := useProxy st;
     followRedirects := followRedirects st;
     requestTimeout := requestTimeout st;
     retryCount := retryCount st;
     customHeaders := customHeaders st |} = st.
Proof. destruct st; reflexivity. Qed.

(** X6.  For the generator "Select None" and "Select All" are the same:
    the configuration built after either is the one over all entries. *)
Theorem select_none_builds_like_select_all
    (entries : list SemanticHarEntry) (st : State) :
  handleGenerate entries (handleSelectNone st)
  = handleGenerate entries (handleSelectAll entries st)
  /\ cfg_selectedIndices (handleGenerate entries (handleSelectNone st))
     = Z.of_nat <$> seq 0 (length entries).
Proof.
  unfold handleGenerate, handleSelectNone, handleSelectAll. simpl.
  rewrite availableIndices_range.
  destruct (0 <? length (Z.of_nat <$> seq 0 (length entries)))%nat;
    split; reflexivity.
Qed.

(** X7.  Whatever the state, the configuration built over a non-empty
    entries array never has an empty selection, and its selection is
    either the user's or the full range. *)
Theorem config_selection_never_empty
    (entries : list SemanticHarEntry) (st : State) :
  entries <> [] ->
  cfg_selectedIndices (handleGenerate entries st) <> []
  /\ (cfg_selectedIndices (handleGenerate entries st) = selectedIndices st
      \/ cfg_selectedIndices (handleGenerate entries st)
         = Z.of_nat <$> seq 0 (length entries)).
Proof.
  intros Hne. unfold handleGenerate. simpl.
  destruct (selectedIndices st) as [|i sel] eqn:Hsel; simpl.
  - rewrite availableIndices_range. split; [|right; reflexivity].
    destruct entries; [congruence | discriminate].
  - split; [discriminate | left; reflexivity].
Qed.

(** X8.  "Add Header" appends one empty pair and leaves the pairs
    before it alone; removing the pair just added gives the state
    back. *)
Theorem add_header_appends (st : State) :
  length (customHeaders (addCustomHeader st)) = S (length (customHeaders st))
  /\ customHeaders (addCustomHeader st) !! length (customHeaders st)
     = Some {| name := ""; value := "" |}
  /\ (forall i, i < length (customHeaders st) ->
      customHeaders (addCustomHeader st) !! i = customHeaders st !! i)
  /\ removeCustomHeader (length (customHeaders st)) (addCustomHeader st) = st.
Proof.
  unfold addCustomHeader, removeCustomHeader. simpl.
  split; [rewrite length_app; simpl; lia|].
  split; [rewrite list_lookup_middle; reflexivity|].
  split; [intros i Hi; apply lookup_app_l; exact Hi|].
  unfold setCustomHeaders. simpl.
  rewrite delete_middle, app_nil_r. apply state_eta.
Qed.

(** X9.  Removing the header at a position of the list drops exactly
    that pair: the pairs before it stay, the pairs after it move up by
    one.  Removing at a position beyond the list changes nothing. *)
Theorem remove_header_drops_one (index : nat) (st : State) :
  (index < length (customHeaders st) ->
   S (length (customHeaders (removeCustomHeader index st)))
   = length (customHeaders st))
  /\ (forall j, j < index ->
      customHeaders (removeCustomHeader index st) !! j = customHeaders st !! j)
  /\ (forall j, index <= j ->
      customHeaders (removeCustomHeader index st) !! j
      = customHeaders st !! S j)
  /\ (length (customHeaders st) <= index -> removeCustomHeader index st = st)
  /\ selectedIndices (removeCustomHeader index st) = selectedIndices st.
Proof.
  unfold removeCustomHeader. simpl.
  split; [intros Hi; rewrite length_delete; [lia|]; apply lookup_lt_is_Some_2; exact Hi|].
  split; [intros j Hj; apply list_lookup_delete_lt; exact Hj|].
  split; [intros j Hj; apply list_lookup_delete_ge; exact Hj|].
  split; [|reflexivity].
  intros Hge. unfold setCustomHeaders.
  rewrite delete_take_drop, take_ge, drop_ge, app_nil_r by lia.
  apply state_eta.
Qed.

(** X10.  Editing a header field succeeds exactly when a header sits at
    the position.  It then changes that field of that header only: the
    other field, the other headers and the length stay; otherwise it
    throws a TypeError. *)
Theorem update_header_in_place (index : nat) (field : header_field)
    (v : string) (st : State) :
  (index < length (customHeaders st) <->
   exists st', updateCustomHeader index field v st = Ok st')
  /\ (length (customHeaders st) <= index ->
      exists message,
        updateCustomHeader index field v st = Throw (ErrorObject "TypeError" message))
  /\ (forall st' h,
        updateCustomHeader index field v st = Ok st' ->
        customHeaders st !! index = Some h ->
        length (customHeaders st') = length (customHeaders st)
        /\ customHeaders st' !! index = Some (set_field field v h)
        /\ (forall j, j <> index -> customHeaders st' !! j = customHeaders st !! j)
        /\ match field with
           | FName => name (set_field field v h) = v
                      /\ value (set_field field v h) = value h
           | FValue => value (set_field field v h) = v
                       /\ name (set_field field v h) = name h
           end).
Proof.
  unfold updateCustomHeader.
  destruct (customHeaders st !! index) as [h|] eqn:Hh.
  - pose proof (lookup_lt_Some _ _ _ Hh) as Hlt.
    split; [split; [eauto | intros _; exact Hlt]|].
    split; [intros Hge; lia|].
    intros st' h' [= <-] [= <-]. simpl.
    split; [apply length_insert|].
    split; [apply list_lookup_insert_eq; exact Hlt|].
    split; [intros j Hj; apply list_lookup_insert_ne; congruence|].
    destruct field; auto.
  - pose proof (lookup_ge_None_1 _ _ Hh) as Hge.
    split; [split; [lia | intros [st' Hst']; discriminate]|].
    split; [intros _; eexists; reflexivity|].
    intros st' h Hok. discriminate.
Qed.

(** X11.  Setting the name and the value of one header can be done in
    either order, and leaves the header with exactly that name and that
    value. *)
Theorem update_header_fields_commute (index : nat) (n v : string) (st : State) :
  index < length (customHeaders st) ->
  (st1 ← updateCustomHeader index FName n st; updateCustomHeader index FValue v st1)
  = (st1 ← updateCustomHeader index FValue v st; updateCustomHeader index FName n st1)
  /\ exists st',
       (st1 ← updateCustomHeader index FName n st;
        updateCustomHeader index FValue v st1) = Ok st'
       /\ customHeaders st' !! index = Some {| name := n; value := v |}.
Proof.
  intros Hlt. unfold updateCustomHeader.
  destruct (lookup_lt_is_Some_2 _ _ Hlt) as [h Hh]. rewrite Hh. simpl.
  rewrite !list_lookup_insert_eq by exact Hlt. simpl.
  rewrite !list_insert_insert_eq.
  split; [reflexivity|].
  eexists. split; [reflexivity|]. simpl.
  apply list_lookup_insert_eq. exact Hlt.
Qed.
End customizer_operations.

(** ** Reading back a number the inputs display *)

Section parse_printed.

Lemma small_N_cases (d : N) :
  (d < 10)%N ->
  d = 0%N \/ d = 1%N \/ d = 2%N \/ d = 3%N \/ d = 4%N \/ d = 5%N
  \/ d = 6%N \/ d = 7%N \/ d = 8%N \/ d = 9%N.
Proof. lia. Qed.

Ltac each_digit d H :=
  destruct (small_N_cases d H)
    as [-> | [-> | [-> | [-> | [-> | [-> | [-> | [-> | [-> | ->]]]]]]]]].

Lemma digit_value_pretty (d : N) :
  (d < 10)%N -> digit_value (pretty_N_char d) = Some (Z.of_N d).
Proof. intros H. each_digit d H; reflexivity. Qed.

(** Reading the digits that [pretty] wrote continues the number read so
    far. *)
Lemma digits_prefix_pretty_go (x : N) :
  (0 < x)%N ->
  forall (s : string) (acc : option Z),
  exists p : nat,
    digits_prefix 10 (pretty_N_go x s) acc
    = digits_prefix 10 s (Some (default 0%Z acc * 10 ^ Z.of_nat p + Z.of_N x)%Z).
Proof.
  induction (N.lt_wf_0 x) as [x _ IH]. intros Hx s acc.
  rewrite pretty_N_go_step by exact Hx.
  assert (x `mod` 10 < 10)%N as Hd by (apply N.mod_lt; lia).
  assert (forall a : Z,
            digits_prefix 10 (String (pretty_N_char (x `mod` 10)) s) (Some a)
            = digits_prefix 10 s (Some (10 * a + Z.of_N (x `mod` 10))%Z)) as Hstep.
  { intros a. cbn [digits_prefix]. rewrite (digit_value_pretty _ Hd).
    destruct (Z.ltb_spec (Z.of_N (x `mod` 10)) 10); [reflexivity | lia]. }
  pose proof (N.div_mod x 10 ltac:(lia)) as Hdm.
  destruct (decide (x `div` 10 = 0)%N) as [Hz | Hnz].
  - rewrite Hz, pretty_N_go_0. exists 1.
    cbn [digits_prefix]. rewrite (digit_value_pretty _ Hd).
    destruct (Z.ltb_spec (Z.of_N (x `mod` 10)) 10); [|lia].
    do 2 f_equal. rewrite Hz in Hdm. lia.
  - destruct (IH (x `div` 10)%N) with (s := String (pretty_N_char (x `mod` 10)) s)
                                     (acc := acc) as [p Hp].
    + apply N.div_lt; lia.
    + lia.
    + exists (S p). rewrite Hp, Hstep. do 2 f_equal.
      rewrite Nat2Z.inj_succ, Z.pow_succ_r by lia. lia.
Qed.

(** What [pretty] writes starts with a digit, followed by nothing or by
    another digit. *)
Lemma pretty_go_shape (x : N) :
  (0 < x)%N ->
  forall s : string,
  exists d r,
    (d < 10)%N
    /\ pretty_N_go x s = String (pretty_N_char d) r
    /\ (r = s \/ exists d' r', (d' < 10)%N /\ r = String (pretty_N_char d') r').
Proof.
  induction (N.lt_wf_0 x) as [x _ IH]. intros Hx s.
  rewrite pretty_N_go_step by exact Hx.
  assert (x `mod` 10 < 10)%N as Hd by (apply N.mod_lt; lia).
  pose proof (N.div_mod x 10 ltac:(lia)) as Hdm.
  destruct (decide (x `div` 10 = 0)%N) as [Hz | Hnz].
  - rewrite Hz, pretty_N_go_0. exists (x `mod` 10)%N, s. auto.
  - destruct (IH (x `div` 10)%N) with (s := String (pretty_N_char (x `mod` 10)) s)
      as (d & r & Hdlt & Hgo & Hr).
    + apply N.div_lt; lia.
    + lia.
    + exists d, r. split; [exact Hdlt|]. split; [exact Hgo|].
      right. destruct Hr as [-> | Hr]; [eauto | exact Hr].
Qed.

(** On a string that starts with a digit and goes on with a digit or
    not at all, [parseInt] reads in radix 10, with or without a minus in
    front. *)
Lemma parseInt_digits (d : N) (r : string) :
  (d < 10)%N ->
  (r = "" \/ exists d' r', (d' < 10)%N /\ r = String (pretty_N_char d') r') ->
  parseInt (String (pretty_N_char d) r)
  = match digits_prefix 10 (String (pretty_N_char d) r) None with
    | None => NaN
    | Some m => Num (1 * m)
    end
  /\ parseInt (String "-" (String (pretty_N_char d) r))
     = match digits_prefix 10 (String (pretty_N_char d) r) None with
       | None => NaN
       | Some m => Num (-1 * m)
       end.
Proof.
  intros Hd Hr.
  each_digit d Hd; try (split; reflexivity).
  destruct Hr as [-> | (d' & r' & Hd' & ->)]; [split; reflexivity|].
  each_digit d' Hd'; split; reflexivity.
Qed.

(** [parseInt] reads back every integer as [pretty] writes it. *)
Lemma parseInt_pretty (z : Z) : parseInt (pretty z) = Num z.
Proof.
  assert (forall p : positive,
            exists d r,
              pretty (N.pos p) = String (pretty_N_char d) r
              /\ (d < 10)%N
              /\ (r = "" \/ exists d' r', (d' < 10)%N /\ r = String (pretty_N_char d') r')
              /\ digits_prefix 10 (String (pretty_N_char d) r) None
                 = Some (Z.pos p)) as Hpos.
  { intros p. unfold pretty, pretty_N.
    destruct (decide (N.pos p = 0)%N) as [Hz | _]; [discriminate|].
    destruct (pretty_go_shape (N.pos p) ltac:(lia) "") as (d & r & Hd & Hgo & Hr).
    destruct (digits_prefix_pretty_go (N.pos p) ltac:(lia) "" None) as [k Hk].
    exists d, r. rewrite <- Hgo.
    split; [reflexivity|]. split; [exact Hd|]. split; [exact Hr|].
    rewrite Hk. reflexivity. }
  destruct z as [|p|p].
  - reflexivity.
  - destruct (Hpos p) as (d & r & Hpretty & Hd & Hr & Hdigits).
    change (pretty (Z.pos p)) with (pretty (N.pos p)). rewrite Hpretty.
    destruct (parseInt_digits d r Hd Hr) as [-> _]. rewrite Hdigits.
    reflexivity.
  - destruct (Hpos p) as (d & r & Hpretty & Hd & Hr & Hdigits).
    change (pretty (Z.neg p)) with ("-" +:+ pretty (N.pos p)). rewrite Hpretty.
    destruct (parseInt_digits d r Hd Hr) as [_ Hneg].
    change ("-" +:+ String (pretty_N_char d) r)
      with (String "-" (String (pretty_N_char d) r)).
    rewrite Hneg, Hdigits. reflexivity.
Qed.
End parse_printed.

Section reenter_settings.
Import LoliCodeCustomizer.

(** X12.  The number inputs show the stored value; typing that very text
    again leaves the state as it is, for a stored timeout from 1 and a
    stored retry count from 0 up to the largest safe integer.  Every
    value up to that bound that the two handlers store is of this
    kind. *)
Theorem displayed_settings_reenter (st : State) :
  (forall z, requestTimeout st = Num z -> (1 <= z <= MAX_SAFE_INTEGER)%Z ->
   exists shown,
     number_to_string (requestTimeout st) = Some shown
     /\ onTimeoutChange shown st = st)
  /\ (forall z, retryCount st = Num z -> (0 <= z <= MAX_SAFE_INTEGER)%Z ->
      exists shown,
        number_to_string (retryCount st) = Some shown
        /\ onRetryChange shown st = st)
  /\ (forall input z,
        requestTimeout (onTimeoutChange input st) = Num z ->
        (z <= MAX_SAFE_INTEGER)%Z ->
        exists shown,
          number_to_string (requestTimeout (onTimeoutChange input st)) = Some shown
          /\ onTimeoutChange shown (onTimeoutChange input st)
             = onTimeoutChange input st)
  /\ (forall input z,
        retryCount (onRetryChange input st) = Num z ->
        (z <= MAX_SAFE_INTEGER)%Z ->
        exists shown,
          number_to_string (retryCount (onRetryChange input st)) = Some shown
          /\ onRetryChange shown (onRetryChange input st)
             = onRetryChange input st).
Proof.
  assert (forall z, (0 <= z <= MAX_SAFE_INTEGER)%Z ->
          number_to_string (Num z) = Some (pretty z)) as Hshown.
  { intros z Hz. unfold number_to_string.
    destruct (Z.leb_spec (Z.abs z) MAX_SAFE_INTEGER); [reflexivity | lia]. }
  assert (forall st' z, requestTimeout st' = Num z ->
          (1 <= z <= MAX_SAFE_INTEGER)%Z ->
          exists shown,
            number_to_string (requestTimeout st') = Some shown
            /\ onTimeoutChange shown st' = st')
    as Htimeout.
  { intros st' z Hz Hle. exists (pretty z).
    rewrite Hz. split; [apply Hshown; lia|].
    unfold onTimeoutChange. rewrite parseInt_pretty.
    replace (Math_max (Num 1) (or_else (Num z) (Num 30))) with (Num z).
    - rewrite <- Hz. destruct st'; reflexivity.
    - unfold or_else, number_truthy.
      destruct (Z.eqb_spec z 0); [lia|]. simpl. f_equal. lia. }
  assert (forall st' z, retryCount st' = Num z ->
          (0 <= z <= MAX_SAFE_INTEGER)%Z ->
          exists shown,
            number_to_string (retryCount st') = Some shown
            /\ onRetryChange shown st' = st')
    as Hretry.
  { intros st' z Hz Hle. exists (pretty z).
    rewrite Hz. split; [apply Hshown; lia|].
    unfold onRetryChange. rewrite parseInt_pretty.
    replace (Math_max (Num 0) (or_else (Num z) (Num 0))) with (Num z).
    - rewrite <- Hz. destruct st'; reflexivity.
    - unfold or_else, number_truthy.
      destruct (Z.eqb_spec z 0); simpl; f_equal; lia. }
  split; [apply Htimeout|]. split; [apply Hretry|]. split.
  - intros input z Hz Hle. apply (Htimeout _ z Hz).
    rewrite onTimeoutChange_value in Hz.
    destruct (parseInt input) as [|v]; [injection Hz as <-; lia|].
    destruct (v =? 0)%Z; injection Hz as <-; lia.
  - intros input z Hz Hle. apply (Hretry _ z Hz).
    rewrite onRetryChange_value in Hz.
    destruct (parseInt input) as [|v]; injection Hz as <-; lia.
Qed.
End reenter_settings.

Lemma displayed_settings_reenter_witness :
  (exists shown,
     number_to_string
       (LoliCodeCustomizer.requestTimeout LoliCodeCustomizer.initial) = Some shown
     /\ LoliCodeCustomizer.onTimeoutChange shown LoliCodeCustomizer.initial
        = LoliCodeCustomizer.initial)
  /\ (exists shown,
        number_to_string
          (LoliCodeCustomizer.retryCount LoliCodeCustomizer.initial) = Some shown
        /\ LoliCodeCustomizer.onRetryChange shown LoliCodeCustomizer.initial
           = LoliCodeCustomizer.initial).
Proof.
  destruct (displayed_settings_reenter LoliCodeCustomizer.initial)
    as (Htimeout & Hretry & _).
  split.
  - apply (Htimeout 30%Z); [reflexivity | unfold MAX_SAFE_INTEGER; lia].
  - apply (Hretry 0%Z); [reflexivity | unfold MAX_SAFE_INTEGER; lia].
Defined.

(** ** Edges and entries *)

Section edge_bounds.
Import DependencyGraph RequestDataTable.

Lemma entry_at_is_Some (entries : list SemanticHarEntry) (i : nat) :
  i < length entries -> is_Some (entry_at entries (Z.of_nat i)).
Proof.
  intros Hi. unfold entry_at.
  destruct (Z.ltb_spec (Z.of_nat i) 0); [lia|].
  rewrite Nat2Z.id. apply lookup_lt_is_Some_2. exact Hi.
Qed.

(** X13.  Both ends of every edge lie inside the matrix.  When the
    matrix is square over the entries (as many rows as entries, every
    row as long), both ends of every edge have an entry, so an edge is
    never labelled with the label of a missing entry. *)
Theorem edges_within_matrix (m : list (list number)) (e : DependencyEdge) :
  e ∈ dependencies m ->
  (exists row, m !! fromIndex e = Some row /\ toIndex e < length row)
  /\ fromIndex e < length m
  /\ (forall entries : list SemanticHarEntry,
        length m = length entries ->
        Forall (fun row => length row = length entries) m ->
        is_Some (entry_at entries (Z.of_nat (fromIndex e)))
        /\ is_Some (entry_at entries (Z.of_nat (toIndex e)))).
Proof.
  intros He. destruct e as [i j]. simpl.
  apply elem_of_dependencies in He. unfold cell in He.
  destruct (m !! i) as [row|] eqn:Hrow; [|discriminate]. simpl in He.
  pose proof (lookup_lt_Some _ _ _ Hrow) as Hi.
  pose proof (lookup_lt_Some _ _ _ He) as Hj.
  split; [exists row; auto|]. split; [exact Hi|].
  intros entries Hlen Hsquare.
  rewrite Forall_forall in Hsquare.
  pose proof (Hsquare row (list_elem_of_lookup_2 _ _ _ Hrow)) as Hrowlen.
  split; apply entry_at_is_Some; lia.
Qed.

Lemma ones_le_cells (m : list (list number)) : ones m <= length (concat m).
Proof. unfold ones. apply List.filter_length_le. Qed.

Lemma length_concat_square (n : nat) (m : list (list number)) :
  Forall (fun row => length row = n) m -> length (concat m) = length m * n.
Proof.
  induction 1 as [|row m Hrow _ IH]; simpl; [reflexivity|].
  rewrite length_app, IH, Hrow. reflexivity.
Qed.

(** X14.  The graph shows "No Dependencies Found" exactly when no cell
    of the matrix is 1, and that is exactly when the table's count is 0
    and its "dependencies detected" note is left out. *)
Theorem no_dependencies_iff (dm : DependencyMatrix) :
  (dependencies (adjacencyMatrix dm) = []
   <-> forall i j, cell (adjacencyMatrix dm) i j <> Some (Num 1))
  /\ (dependencies (adjacencyMatrix dm) = []
      <-> dependencyCount (Some dm) = 0).
Proof.
  split.
  - split.
    + intros Hnil i j Hcell. apply elem_of_dependencies in Hcell.
      rewrite Hnil in Hcell. by apply elem_of_nil in Hcell.
    + intros Hnone. destruct (dependencies (adjacencyMatrix dm)) as [|[i j] l] eqn:Hd;
        [reflexivity|].
      exfalso. apply (Hnone i j). apply elem_of_dependencies.
      rewrite Hd. apply list_elem_of_here.
  - rewrite dependencyCount_ones, <- (length_matrix_edges 0),
      <- dependencies_row_major.
    split; [intros ->; reflexivity | apply length_zero_iff_nil].
Qed.

(** X15.  There are never more edges than cells: for an n-by-n matrix
    at most n * n, and the table counts the same number. *)
Theorem edges_at_most_cells (dm : DependencyMatrix) :
  length (dependencies (adjacencyMatrix dm)) <= length (concat (adjacencyMatrix dm))
  /\ (forall n, length (adjacencyMatrix dm) = n ->
      Forall (fun row => length row = n) (adjacencyMatrix dm) ->
      length (dependencies (adjacencyMatrix dm)) <= n * n
      /\ dependencyCount (Some dm) <= n * n).
Proof.
  assert (length (dependencies (adjacencyMatrix dm)) = ones (adjacencyMatrix dm))
    as Hlen.
  { rewrite dependencies_row_major. apply length_matrix_edges. }
  rewrite Hlen, dependencyCount_ones.
  pose proof (ones_le_cells (adjacencyMatrix dm)) as Hle.
  split; [exact Hle|].
  intros n Hrows Hsquare.
  rewrite (length_concat_square n _ Hsquare), Hrows in Hle. auto.
Qed.
End edge_bounds.

(** ** Which files are normalised *)

Section normalisation_complete.
Import HARUploader.

Lemma get_nullish_throws (v : jsval) (k : string) :
  is_nullish v = true -> exists err, get v k = Throw err.
Proof. destruct v; simpl; intros H; try discriminate; eauto. Qed.

(** The callback succeeds on valid entries only. *)
Lemma mapEntry_cases (entry : jsval) (i : nat) :
  valid_entry entry \/ exists err, mapEntry entry i = Throw err.
Proof.
  destruct (is_nullish entry) eqn:Hen.
  { right. unfold mapEntry.
    destruct (get_nullish_throws entry "startedDateTime" Hen) as [err ->]. eauto. }
  destruct (is_nullish (prop entry "request")) eqn:Hrq.
  { right. unfold mapEntry.
    rewrite (get_non_nullish entry "startedDateTime" Hen). simpl.
    rewrite (get_non_nullish entry "time" Hen). simpl.
    rewrite (get_non_nullish entry "request" Hen). simpl.
    destruct (get_nullish_throws _ "method" Hrq) as [err ->]. eauto. }
  destruct (is_nullish (prop entry "response")) eqn:Hrs.
  { right. unfold mapEntry.
    destruct (request_body_value _ Hrq) as (rb & Hrb & _).
    rewrite (get_non_nullish entry "startedDateTime" Hen). simpl.
    rewrite (get_non_nullish entry "time" Hen). simpl.
    rewrite (get_non_nullish entry "request" Hen). simpl.
    rewrite (get_non_nullish _ "method" Hrq). simpl.
    rewrite (get_non_nullish _ "url" Hrq). simpl.
    rewrite (get_non_nullish _ "headers" Hrq). simpl.
    rewrite Hrb. simpl.
    rewrite (get_non_nullish _ "cookies" Hrq). simpl.
    rewrite (get_non_nullish _ "queryString" Hrq). simpl.
    rewrite (get_non_nullish entry "response" Hen). simpl.
    destruct (get_nullish_throws _ "status" Hrs) as [err ->]. eauto. }
  left. exists (prop entry "request"), (prop entry "response").
  repeat split; try assumption; apply get_non_nullish; exact Hen.
Qed.

Lemma mapEntry_Ok_valid (entry : jsval) (i : nat) (se : SemanticEntry) :
  mapEntry entry i = Ok se -> valid_entry entry.
Proof.
  intros Hok. destruct (mapEntry_cases entry i) as [Hv | [err Herr]];
    [exact Hv | congruence].
Qed.

Lemma map_indexed_Ok_valid (k : nat) (items : list jsval) (ses : list SemanticEntry) :
  map_indexed mapEntry k items = Ok ses -> Forall valid_entry items.
Proof.
  revert k ses. induction items as [|entry items IH]; intros k ses Hok;
    [constructor|].
  simpl in Hok.
  destruct (mapEntry entry k) as [se|err] eqn:Hse; [|discriminate].
  simpl in Hok.
  destruct (map_indexed mapEntry (S k) items) as [ses'|err] eqn:Hses;
    [|discriminate].
  constructor; [exact (mapEntry_Ok_valid _ _ _ Hse) | exact (IH _ _ Hses)].
Qed.

Lemma semanticEntries_Ok_valid (harData : jsval) (ses : list SemanticEntry) :
  semanticEntries harData = Ok ses ->
  exists log items,
    get harData "log" = Ok log
    /\ get log "entries" = Ok (VArr items)
    /\ Forall valid_entry items.
Proof.
  intros Hok. unfold semanticEntries in Hok.
  destruct (get harData "log") as [log|] eqn:Hlog; [|discriminate].
  simpl in Hok. destruct (truthy log) eqn:Hlt; [|discriminate]. simpl in Hok.
  rewrite (get_non_nullish log "entries" (truthy_non_nullish _ Hlt)) in Hok.
  simpl in Hok.
  destruct (truthy (prop log "entries")) eqn:Het; [|discriminate]. simpl in Hok.
  destruct (prop log "entries") as [| |b|n|s|items|props|f] eqn:Hentries;
    try discriminate.
  exists log, items. split; [reflexivity|]. split.
  - rewrite (get_non_nullish log "entries" (truthy_non_nullish _ Hlt)).
    rewrite Hentries. reflexivity.
  - exact (map_indexed_Ok_valid _ _ _ Hok).
Qed.

(** X16.  The validation and the mapping succeed exactly on the values
    that have a [log] with an [entries] array whose entries all carry a
    request and a response; they then give one semantic entry per raw
    entry.  On every other value they throw. *)
Theorem semanticEntries_Ok_iff (harData : jsval) :
  ((exists ses, semanticEntries harData = Ok ses)
   <-> exists items, valid_har harData items)
  /\ (forall ses items,
        semanticEntries harData = Ok ses -> valid_har harData items ->
        length ses = length items)
  /\ ((forall items, ~ valid_har harData items) ->
      exists err, semanticEntries harData = Throw err).
Proof.
  split; [split|split].
  - intros [ses Hok].
    destruct (semanticEntries_Ok_valid harData ses Hok) as (log & items & H).
    exists items, log. exact H.
  - intros [items Hvalid].
    destruct (semanticEntries_valid harData items Hvalid) as (ses & Hses & _).
    eauto.
  - intros ses items Hok Hvalid.
    destruct (semanticEntries_valid harData items Hvalid) as (ses' & Hses & Hlen & _).
    congruence.
  - intros Hnone. destruct (semanticEntries harData) as [ses|err] eqn:Hrun; [|eauto].
    destruct (semanticEntries_Ok_valid harData ses Hrun) as (log & items & H).
    destruct (Hnone items). exists log. exact H.
Qed.

Context {Store : Type}.
Variable JSON_parse : string -> result jsval.
Variable setHarEntries : list SemanticEntry -> Store -> Store.

(** X17.  One entry without a request or a response (or a [null] entry)
    anywhere in the file makes the whole upload fail: an error is shown
    and nothing is published, however many valid entries come before
    it. *)
Theorem invalid_entry_rejects_file (text : string) (w : World Store)
    (harData log : jsval) (items : list jsval) (entry : jsval) :
  JSON_parse text = Ok harData ->
  get harData "log" = Ok log ->
  get log "entries" = Ok (VArr items) ->
  entry ∈ items ->
  ~ valid_entry entry ->
  exists err,
    error (processHARFile JSON_parse setHarEntries text w)
    = Some (errorMessage err)
    /\ store (processHARFile JSON_parse setHarEntries text w) = store w.
Proof.
  intros Hparse Hlog Hentries Hin Hinvalid.
  destruct (harData' ← JSON_parse text; semanticEntries harData')
    as [ses|err] eqn:Hrun.
  - exfalso. rewrite Hparse in Hrun. simpl in Hrun.
    destruct (semanticEntries_Ok_valid harData ses Hrun)
      as (log' & items' & Hlog' & Hentries' & Hall).
    rewrite Hlog in Hlog'. injection Hlog' as <-.
    rewrite Hentries in Hentries'. injection Hentries' as <-.
    rewrite Forall_forall in Hall. exact (Hinvalid (Hall entry Hin)).
  - exists err. rewrite (processHARFile_failure _ _ text w err Hrun). auto.
Qed.

(** X18.  After an upload the error shown and the busy flag depend on
    that upload alone: a run that succeeds leaves no error, whatever was
    shown before, publishes its entries and logs nothing; a run that
    fails shows its own message, logs its error once and leaves the
    store alone. *)
Theorem upload_outcome (text : string) (w : World Store) :
  isProcessing (processHARFile JSON_parse setHarEntries text w) = false
  /\ (forall busy shown,
        processHARFile JSON_parse setHarEntries text
          (mkWorld busy shown (store w) (console w))
        = processHARFile JSON_parse setHarEntries text w)
  /\ ((exists ses,
         (harData ← JSON_parse text; semanticEntries harData) = Ok ses
         /\ error (processHARFile JSON_parse setHarEntries text w) = None
         /\ store (processHARFile JSON_parse setHarEntries text w)
            = setHarEntries ses (store w)
         /\ console (processHARFile JSON_parse setHarEntries text w) = console w)
      \/ (exists err,
            (harData ← JSON_parse text; semanticEntries harData) = Throw err
            /\ error (processHARFile JSON_parse setHarEntries text w)
               = Some (errorMessage err)
            /\ store (processHARFile JSON_parse setHarEntries text w) = store w
            /\ console (processHARFile JSON_parse setHarEntries text w)
               = console w ++ [err])).
Proof.
  split; [reflexivity|]. split; [reflexivity|].
  destruct (harData ← JSON_parse text; semanticEntries harData)
    as [ses|err] eqn:Hrun.
  - left. exists ses. rewrite (processHARFile_success _ _ text w ses Hrun). auto.
  - right. exists err. rewrite (processHARFile_failure _ _ text w err Hrun). auto.
Qed.
End normalisation_complete.

(** ** What a published entry holds *)

Section entry_fields.
Import HARUploader.

Lemma truthy_or_default (a b : jsval) :
  truthy b = true -> truthy (or_default a b) = true.
Proof. intros Hb. unfold or_default. destruct (truthy a) eqn:Ha; assumption. Qed.

Lemma or_default_zero (a : jsval) :
  or_default a (VNum (Num 0)) = VNum (Num 0)
  \/ truthy (or_default a (VNum (Num 0))) = true.
Proof. unfold or_default. destruct (truthy a) eqn:Ha; auto. Qed.

Lemma request_body_explicit (rq : jsval) :
  is_nullish rq = false ->
  request_body rq
  = Ok (if truthy (prop rq "postData")
        then Some {| mimeType := prop (prop rq "postData") "mimeType";
                     text := prop (prop rq "postData") "text";
                     size := or_default (prop rq "bodySize") (VNum (Num 0)) |}
        else None).
Proof.
  intros Hrq. unfold request_body.
  rewrite (get_non_nullish rq "postData" Hrq). simpl.
  destruct (truthy (prop rq "postData")) eqn:Hpd; [|reflexivity].
  pose proof (truthy_non_nullish _ Hpd) as Hnn.
  rewrite (get_non_nullish _ "mimeType" Hnn). simpl.
  rewrite (get_non_nullish _ "text" Hnn). simpl.
  rewrite (get_non_nullish rq "bodySize" Hrq). reflexivity.
Qed.

Lemma response_content_explicit (rs : jsval) :
  is_nullish rs = false ->
  response_content rs
  = Ok (if truthy (prop rs "content")
        then Some {| mimeType := prop (prop rs "content") "mimeType";
                     text := prop (prop rs "content") "text";
                     size := or_default (prop (prop rs "content") "size")
                               (VNum (Num 0)) |}
        else None).
Proof.
  intros Hrs. unfold response_content.
  rewrite (get_non_nullish rs "content" Hrs). simpl.
  destruct (truthy (prop rs "content")) eqn:Hct; [|reflexivity].
  pose proof (truthy_non_nullish _ Hct) as Hnn.
  rewrite (get_non_nullish _ "mimeType" Hnn). simpl.
  rewrite (get_non_nullish _ "text" Hnn). simpl.
  rewrite (get_non_nullish _ "size" Hnn). reflexivity.
Qed.

(** X19.  In every semantic entry the mapping produces, the header,
    cookie and query-string members are what the file holds when that is
    truthy and an empty array otherwise, so they are never missing.  A
    request body takes its size from the request's [bodySize], a
    response body from the content's [size]; either size is the number 0
    when the file has none. *)
Theorem mapped_entry_fields (entry : jsval) (i : nat) (se : SemanticEntry) :
  mapEntry entry i = Ok se ->
  let rq := prop entry "request" in
  let rs := prop entry "response" in
  headers (request se) = or_default (prop rq "headers") (VArr [])
  /\ cookies (request se) = or_default (prop rq "cookies") (VArr [])
  /\ queryString (request se) = or_default (prop rq "queryString") (VArr [])
  /\ response_headers (response se) = or_default (prop rs "headers") (VArr [])
  /\ response_cookies (response se) = or_default (prop rs "cookies") (VArr [])
  /\ truthy (headers (request se)) = true
  /\ truthy (cookies (request se)) = true
  /\ truthy (queryString (request se)) = true
  /\ truthy (response_headers (response se)) = true
  /\ truthy (response_cookies (response se)) = true
  /\ (forall b, body (request se) = Some b ->
      size b = or_default (prop rq "bodySize") (VNum (Num 0))
      /\ (size b = VNum (Num 0) \/ truthy (size b) = true))
  /\ (forall b, response_body (response se) = Some b ->
      size b = or_default (prop (prop rs "content") "size") (VNum (Num 0))
      /\ (size b = VNum (Num 0) \/ truthy (size b) = true)).
Proof.
  intros Hok rq rs.
  destruct (mapEntry_Ok_valid entry i se Hok) as (rq' & rs' & Hrq & Hrqn & Hrs & Hrsn).
  pose proof (get_Ok_non_nullish _ _ _ Hrq) as Hen.
  pose proof (get_Ok_prop _ _ _ Hrq) as Erq. fold rq in Erq. subst rq'.
  pose proof (get_Ok_prop _ _ _ Hrs) as Ers. fold rs in Ers. subst rs'.
  unfold mapEntry in Hok.
  rewrite (get_non_nullish entry "startedDateTime" Hen) in Hok. simpl in Hok.
  rewrite (get_non_nullish entry "time" Hen) in Hok. simpl in Hok.
  rewrite Hrq in Hok. simpl in Hok.
  rewrite (get_non_nullish rq "method" Hrqn) in Hok. simpl in Hok.
  rewrite (get_non_nullish rq "url" Hrqn) in Hok. simpl in Hok.
  rewrite (get_non_nullish rq "headers" Hrqn) in Hok. simpl in Hok.
  rewrite (request_body_explicit rq Hrqn) in Hok. simpl in Hok.
  rewrite (get_non_nullish rq "cookies" Hrqn) in Hok. simpl in Hok.
  rewrite (get_non_nullish rq "queryString" Hrqn) in Hok. simpl in Hok.
  rewrite Hrs in Hok. simpl in Hok.
  rewrite (get_non_nullish rs "status" Hrsn) in Hok. simpl in Hok.
  rewrite (get_non_nullish rs "statusText" Hrsn) in Hok. simpl in Hok.
  rewrite (get_non_nullish rs "headers" Hrsn) in Hok. simpl in Hok.
  rewrite (response_content_explicit rs Hrsn) in Hok. simpl in Hok.
  rewrite (get_non_nullish rs "cookies" Hrsn) in Hok. simpl in Hok.
  injection Hok as <-. simpl.
  repeat (split; [reflexivity|]).
  repeat (split; [apply truthy_or_default; reflexivity|]).
  split.
  - intros b Hb. destruct (truthy (prop rq "postData")); [|discriminate].
    injection Hb as <-. simpl. split; [reflexivity | apply or_default_zero].
  - intros b Hb. destruct (truthy (prop rs "content")); [|discriminate].
    injection Hb as <-. simpl. split; [reflexivity | apply or_default_zero].
Qed.
End entry_fields.

(** ** Dropped and chosen files *)

Section dropped_files.
Import HARUploader HARUploaderHandlers.

(** [endsWith] holds exactly of the strings that are something followed
    by the suffix. *)
Lemma endsWith_iff (s suffix : string) :
  endsWith s suffix = true <-> exists pre, s = pre +:+ suffix.
Proof.
  split.
  - induction s as [|c s IH].
    + destruct suffix as [|a suffix]; simpl;
        [intros _; exists ""; reflexivity | intros H; discriminate H].
    + cbn [endsWith].
      destruct (String.eqb_spec (String c s) suffix) as [<- | _].
      * intros _. exists "". reflexivity.
      * intros H. destruct (IH H) as [pre ->]. exists (String c pre). reflexivity.
  - intros [pre ->]. induction pre as [|c pre IH].
    + change ("" +:+ suffix) with suffix.
      destruct suffix; cbn [endsWith]; rewrite String.eqb_refl; reflexivity.
    + change (String c pre +:+ suffix) with (String c (pre +:+ suffix)).
      cbn [endsWith]. rewrite IH.
      destruct (String.eqb (String c (pre +:+ suffix)) suffix); reflexivity.
Qed.

(** X20.  The drop zone takes a file for a HAR file exactly when its
    name ends in ".har" (in lower case) or its type is
    "application/json". *)
Theorem isHarFile_iff (f : File) :
  isHarFile f = true
  <-> (exists base, file_name f = base +:+ ".har")
      \/ file_type f = "application/json".
Proof.
  unfold isHarFile. rewrite orb_true_iff, endsWith_iff, String.eqb_eq.
  reflexivity.
Qed.

Lemma find_first (pre : list File) (f : File) (post : list File) :
  Forall (fun g => isHarFile g = false) pre ->
  isHarFile f = true ->
  List.find isHarFile (pre ++ f :: post) = Some f.
Proof.
  induction 1 as [|g pre Hg _ IH]; intros Hf; simpl.
  - rewrite Hf. reflexivity.
  - rewrite Hg. exact (IH Hf).
Qed.

Lemma find_none (files : list File) :
  Forall (fun g => isHarFile g = false) files ->
  List.find isHarFile files = None.
Proof. induction 1 as [|g files Hg _ IH]; simpl; [reflexivity | rewrite Hg; exact IH]. Qed.

Context {Store : Type}.
Variable JSON_parse : string -> result jsval.
Variable setHarEntries : list SemanticEntry -> Store -> Store.

(** X21.  Of the files dropped, exactly the first one that looks like a
    HAR file is processed; files before it that do not look like one are
    skipped and files after it are ignored.  When none looks like one,
    the drop only shows "Please drop a valid HAR file": the store, the
    console and the busy flag stay as they were.  Either way the drag
    highlight ends. *)
Theorem drop_processes_first_har_file (files : list File) (u : Uploader Store) :
  (forall pre f post,
     files = pre ++ f :: post ->
     Forall (fun g => isHarFile g = false) pre ->
     isHarFile f = true ->
     handleDrop JSON_parse setHarEntries files u
     = mkUploader false
         (processHARFile JSON_parse setHarEntries (file_text f) (world u)))
  /\ (Forall (fun g => isHarFile g = false) files ->
      handleDrop JSON_parse setHarEntries files u
      = mkUploader false
          (mkWorld (isProcessing (world u))
                   (Some "Please drop a valid HAR file")
                   (store (world u)) (console (world u))))
  /\ isDragging (handleDrop JSON_parse setHarEntries files u) = false.
Proof.
  split; [|split].
  - intros pre f post -> Hpre Hf. unfold handleDrop.
    rewrite (find_first pre f post Hpre Hf). reflexivity.
  - intros Hnone. unfold handleDrop. rewrite (find_none files Hnone). reflexivity.
  - unfold handleDrop. destruct (List.find isHarFile files); reflexivity.
Qed.

(** X22.  The file input does not look at names or types: a file the
    drop zone turns away with an error is processed when it is chosen
    through the input. *)
Theorem input_processes_what_drop_rejects (f : File) (rest : list File)
    (u : Uploader Store) :
  isHarFile f = false ->
  world (handleFileInput JSON_parse setHarEntries (f :: rest) u)
  = processHARFile JSON_parse setHarEntries (file_text f) (world u)
  /\ error (world (handleDrop JSON_parse setHarEntries [f] u))
     = Some "Please drop a valid HAR file"
  /\ store (world (handleDrop JSON_parse setHarEntries [f] u)) = store (world u).
Proof.
  intros Hf. split; [reflexivity|].
  unfold handleDrop. simpl. rewrite Hf. simpl. auto.
Qed.
End dropped_files.

(** ** The properties above on concrete inputs *)

Lemma row_url_total_witness :
  let parse := fun s => if has_scheme s then Some (mkURL "example.test" "/") else None in
  RequestTableRow.url parse (mkEntry "entry-0" "GET" "/api/login")
  = Ok ("invalid", "/api/login").
Proof.
  intros parse.
  destruct (row_url_total parse (mkEntry "entry-0" "GET" "/api/login"))
    as (host & path & Hok & _ & _ & Hsound).
  destruct Hsound as [Hhost Hpath].
  - intros s Hs. unfold parse. rewrite Hs. reflexivity.
  - reflexivity.
  - rewrite Hok, Hhost, Hpath. reflexivity.
Defined.

Lemma statusColor_classes_witness :
  RequestTableRow.statusColor (Num 204) = "bg-green-600"
  /\ RequestTableRow.statusColor (Num 101) = "bg-red-600".
Proof.
  split.
  - apply (statusColor_classes (Num 204)). exists 204%Z. split; [reflexivity | lia].
  - apply (statusColor_classes (Num 101)). right. exists 101%Z.
    split; [reflexivity | lia].
Defined.

Lemma config_selection_never_empty_witness :
  LoliCodeCustomizer.cfg_selectedIndices
    (LoliCodeCustomizer.handleGenerate
       [mkEntry "entry-0" "GET" "https://example.test/"]
       (LoliCodeCustomizer.handleSelectNone LoliCodeCustomizer.initial))
  <> [].
Proof.
  apply (config_selection_never_empty
           [mkEntry "entry-0" "GET" "https://example.test/"]
           (LoliCodeCustomizer.handleSelectNone LoliCodeCustomizer.initial)).
  discriminate.
Defined.

Lemma add_header_appends_witness :
  let st := LoliCodeCustomizer.addCustomHeader LoliCodeCustomizer.initial in
  LoliCodeCustomizer.customHeaders (LoliCodeCustomizer.addCustomHeader st) !! 0
  = LoliCodeCustomizer.customHeaders st !! 0
  /\ LoliCodeCustomizer.removeCustomHeader 1 (LoliCodeCustomizer.addCustomHeader st)
     = st.
Proof.
  intros st.
  destruct (add_header_appends st) as (_ & _ & Hkeep & Hback).
  split; [apply Hkeep; simpl; lia | exact Hback].
Defined.

Lemma remove_header_drops_one_witness :
  let st := LoliCodeCustomizer.addCustomHeader
              (LoliCodeCustomizer.addCustomHeader LoliCodeCustomizer.initial) in
  S (length (LoliCodeCustomizer.customHeaders
               (LoliCodeCustomizer.removeCustomHeader 0 st))) = 2
  /\ LoliCodeCustomizer.removeCustomHeader 5 st = st.
Proof.
  intros st. split.
  - apply (remove_header_drops_one 0 st). simpl. lia.
  - apply (remove_header_drops_one 5 st). simpl. lia.
Defined.

Lemma update_header_in_place_witness :
  exists st',
    LoliCodeCustomizer.updateCustomHeader 0 LoliCodeCustomizer.FName "X-Trace"
      (LoliCodeCustomizer.addCustomHeader LoliCodeCustomizer.initial)
    = Ok st'.
Proof.
  apply (update_header_in_place 0 LoliCodeCustomizer.FName "X-Trace"
           (LoliCodeCustomizer.addCustomHeader LoliCodeCustomizer.initial)).
  simpl. lia.
Defined.

Lemma update_header_fields_commute_witness :
  exists st',
    (st1 ← LoliCodeCustomizer.updateCustomHeader 0 LoliCodeCustomizer.FName "X-Trace"
             (LoliCodeCustomizer.addCustomHeader LoliCodeCustomizer.initial);
     LoliCodeCustomizer.updateCustomHeader 0 LoliCodeCustomizer.FValue "a" st1)
    = Ok st'
    /\ LoliCodeCustomizer.customHeaders st' !! 0
       = Some (LoliCodeCustomizer.mkHeader "X-Trace" "a").
Proof.
  apply (update_header_fields_commute 0 "X-Trace" "a"
           (LoliCodeCustomizer.addCustomHeader LoliCodeCustomizer.initial)).
  simpl. lia.
Defined.

Lemma edges_within_matrix_witness :
  is_Some (DependencyGraph.entry_at
             [mkEntry "entry-0" "POST" "https://example.test/login";
              mkEntry "entry-1" "GET" "https://example.test/"] 1).
Proof.
  destruct (edges_within_matrix [[Num 0; Num 1]; [Num 0; Num 0]]
              (DependencyGraph.mkEdge 0 1)) as (_ & _ & Hentries).
  - apply list_elem_of_here.
  - apply (Hentries [mkEntry "entry-0" "POST" "https://example.test/login";
                     mkEntry "entry-1" "GET" "https://example.test/"]).
    + reflexivity.
    + repeat constructor.
Defined.

Lemma no_dependencies_iff_witness :
  RequestDataTable.dependencyCount
    (Some (mkMatrix [[Num 0; Num 2]; [NaN; Num 0]] [])) = 0.
Proof.
  apply (no_dependencies_iff (mkMatrix [[Num 0; Num 2]; [NaN; Num 0]] [])).
  reflexivity.
Defined.

Lemma edges_at_most_cells_witness :
  length (DependencyGraph.dependencies [[Num 1; Num 1]; [Num 0; Num 1]]) <= 2 * 2.
Proof.
  destruct (edges_at_most_cells (mkMatrix [[Num 1; Num 1]; [Num 0; Num 1]] []))
    as [_ Hsquare].
  apply (Hsquare 2); [reflexivity | repeat constructor].
Defined.

Lemma semanticEntries_Ok_iff_witness :
  exists ses, HARUploader.semanticEntries HARUploader.sample_har = Ok ses.
Proof.
  apply (semanticEntries_Ok_iff HARUploader.sample_har).
  eexists. eexists. split; [reflexivity|]. split; [reflexivity|].
  repeat constructor; eexists _, _; repeat split; reflexivity.
Defined.

Lemma invalid_entry_rejects_file_witness :
  let parse := fun _ : string =>
    Ok (VObj [("log", VObj [("entries",
          VArr [VObj [("request", VObj []); ("response", VObj [])]; VNull])])]) in
  HARUploader.store
    (HARUploader.processHARFile parse HARUploader.replace_entries "two entries"
       HARUploader.sample_world)
  = HARUploader.store HARUploader.sample_world.
Proof.
  intros parse.
  destruct (invalid_entry_rejects_file parse HARUploader.replace_entries
              "two entries" HARUploader.sample_world
              (VObj [("log", VObj [("entries",
                 VArr [VObj [("request", VObj []); ("response", VObj [])]; VNull])])])
              (VObj [("entries",
                 VArr [VObj [("request", VObj []); ("response", VObj [])]; VNull])])
              [VObj [("request", VObj []); ("response", VObj [])]; VNull]
              VNull) as (err & _ & Hstore).
  - reflexivity.
  - reflexivity.
  - reflexivity.
  - apply list_elem_of_further, list_elem_of_here.
  - intros (rq & rs & Hrq & _). discriminate Hrq.
  - exact Hstore.
Defined.

Lemma mapped_entry_fields_witness :
  exists se,
    HARUploader.mapEntry
      (VObj [("request", VObj [("method", VStr "GET")]);
             ("response", VObj [("content", VObj [])])]) 0
    = Ok se
    /\ HARUploader.headers (HARUploader.request se) = VArr []
    /\ (forall b, HARUploader.response_body (HARUploader.response se) = Some b ->
        HARUploader.size b = VNum (Num 0)).
Proof.
  assert (exists se,
            HARUploader.mapEntry
              (VObj [("request", VObj [("method", VStr "GET")]);
                     ("response", VObj [("content", VObj [])])]) 0
            = Ok se) as [se Hse] by (eexists; reflexivity).
  destruct (mapped_entry_fields _ 0 se Hse)
    as (Hheaders & _ & _ & _ & _ & _ & _ & _ & _ & _ & _ & Hsize).
  exists se. split; [exact Hse|]. split; [exact Hheaders|].
  intros b Hb. exact (proj1 (Hsize b Hb)).
Defined.

Lemma isHarFile_iff_witness :
  HARUploaderHandlers.isHarFile
    (HARUploaderHandlers.mkFile "capture.har" "" "") = true
  /\ HARUploaderHandlers.isHarFile
       (HARUploaderHandlers.mkFile "export" "application/json" "") = true.
Proof.
  split.
  - apply (isHarFile_iff (HARUploaderHandlers.mkFile "capture.har" "" "")).
    left. exists "capture". reflexivity.
  - apply (isHarFile_iff (HARUploaderHandlers.mkFile "export" "application/json" "")).
    right. reflexivity.
Defined.

Lemma drop_processes_first_har_file_witness :
  HARUploaderHandlers.handleDrop HARUploader.sample_JSON_parse
    HARUploader.replace_entries
    [HARUploaderHandlers.mkFile "notes.txt" "text/plain" "hello";
     HARUploaderHandlers.mkFile "capture.har" "" HARUploader.sample_text;
     HARUploaderHandlers.mkFile "later.har" "" "{}"]
    (HARUploaderHandlers.mkUploader true HARUploader.sample_world)
  = HARUploaderHandlers.mkUploader false
      (HARUploader.processHARFile HARUploader.sample_JSON_parse
         HARUploader.replace_entries HARUploader.sample_text
         HARUploader.sample_world).
Proof.
  destruct (drop_processes_first_har_file HARUploader.sample_JSON_parse
              HARUploader.replace_entries
              [HARUploaderHandlers.mkFile "notes.txt" "text/plain" "hello";
               HARUploaderHandlers.mkFile "capture.har" "" HARUploader.sample_text;
               HARUploaderHandlers.mkFile "later.har" "" "{}"]
              (HARUploaderHandlers.mkUploader true HARUploader.sample_world))
    as (Hfirst & _).
  apply (Hfirst [HARUploaderHandlers.mkFile "notes.txt" "text/plain" "hello"]
                (HARUploaderHandlers.mkFile "capture.har" "" HARUploader.sample_text)
                [HARUploaderHandlers.mkFile "later.har" "" "{}"]).
  - reflexivity.
  - repeat constructor.
  - reflexivity.
Defined.

Lemma input_processes_what_drop_rejects_witness :
  HARUploader.store
    (HARUploaderHandlers.world
       (HARUploaderHandlers.handleFileInput HARUploader.sample_JSON_parse
          HARUploader.replace_entries
          [HARUploaderHandlers.mkFile "capture.txt" "text/plain"
             HARUploader.sample_text]
          (HARUploaderHandlers.mkUploader false HARUploader.sample_world)))
  = HARUploader.store
      (HARUploader.processHARFile HARUploader.sample_JSON_parse
         HARUploader.replace_entries HARUploader.sample_text
         HARUploader.sample_world).
Proof.
  destruct (input_processes_what_drop_rejects HARUploader.sample_JSON_parse
              HARUploader.replace_entries
              (HARUploaderHandlers.mkFile "capture.txt" "text/plain"
                 HARUploader.sample_text) []
              (HARUploaderHandlers.mkUploader false HARUploader.sample_world))
    as (Hinput & _); [reflexivity|].
  rewrite Hinput. reflexivity.
Defined.

(** ** Selection buttons and the Generate button *)

Section selection_buttons.
Import LoliCodeCustomizer.

(** X23.  After "Select All" the Generate button is enabled whatever
    the entries; after "Select None" it is disabled exactly when there
    are entries; after "Critical Path Only" with a path that is not
    empty it is enabled. *)
Theorem generate_button_after_selection
    (entries : list SemanticHarEntry) (st : State) :
  generateDisabled entries (handleSelectAll entries st) = false
  /\ (generateDisabled entries (handleSelectNone st) = true <-> entries <> [])
  /\ (forall dm, criticalPath dm <> [] ->
      generateDisabled entries (handleSelectCriticalPath (Some dm) st) = false).
Proof.
  split; [|split].
  - destruct (generateDisabled entries (handleSelectAll entries st)) eqn:Hd;
      [|reflexivity].
    apply generateDisabled_iff in Hd as [Hsel Hne]. simpl in Hsel.
    rewrite availableIndices_range in Hsel.
    destruct entries; [congruence | discriminate].
  - rewrite generateDisabled_iff. simpl. split; [intros [_ H]; exact H | auto].
  - intros dm Hcp.
    destruct (generateDisabled entries (handleSelectCriticalPath (Some dm) st)) eqn:Hd;
      [|reflexivity].
    apply generateDisabled_iff in Hd as [Hsel _]. simpl in Hsel. congruence.
Qed.

(** X24.  "Select All" selects every entry exactly once and nothing
    else: an index is selected exactly when it is a position of the
    entries array, where [entries[index]] is an entry, and no index is
    selected twice. *)
Theorem select_all_selects_each_entry_once
    (entries : list SemanticHarEntry) (st : State) :
  (forall i : Z,
     i ∈ selectedIndices (handleSelectAll entries st)
     <-> (0 <= i < Z.of_nat (length entries))%Z)
  /\ (forall i : Z,
        i ∈ selectedIndices (handleSelectAll entries st) ->
        is_Some (DependencyGraph.entry_at entries i))
  /\ NoDup (selectedIndices (handleSelectAll entries st))
  /\ length (selectedIndices (handleSelectAll entries st)) = length entries.
Proof.
  simpl. rewrite availableIndices_range.
  assert (forall i : Z,
            i ∈ Z.of_nat <$> seq 0 (length entries)
            <-> (0 <= i < Z.of_nat (length entries))%Z) as Hmem.
  { intros i. rewrite list_elem_of_fmap. split.
    - intros (n & -> & Hn). apply elem_of_seq in Hn. lia.
    - intros Hi. exists (Z.to_nat i). split; [lia|]. apply elem_of_seq. lia. }
  split; [exact Hmem|]. split; [|split].
  - intros i Hi. apply Hmem in Hi.
    replace i with (Z.of_nat (Z.to_nat i)) by lia.
    apply entry_at_is_Some. lia.
  - apply NoDup_fmap_2; [apply Nat2Z.inj' | apply NoDup_seq].
  - rewrite length_fmap, length_seq. reflexivity.
Qed.
End selection_buttons.

Lemma generate_button_after_selection_witness :
  LoliCodeCustomizer.generateDisabled
    [mkEntry "entry-0" "GET" "https://example.test/"]
    (LoliCodeCustomizer.handleSelectNone LoliCodeCustomizer.initial) = true
  /\ LoliCodeCustomizer.generateDisabled
       [mkEntry "entry-0" "GET" "https://example.test/"]
       (LoliCodeCustomizer.handleSelectCriticalPath
          (Some (mkMatrix [] [0%Z])) LoliCodeCustomizer.initial) = false.
Proof.
  destruct (generate_button_after_selection
              [mkEntry "entry-0" "GET" "https://example.test/"]
              LoliCodeCustomizer.initial) as (_ & Hnone & Hpath).
  split.
  - apply Hnone. discriminate.
  - apply (Hpath (mkMatrix [] [0%Z])). discriminate.
Defined.

Lemma select_all_selects_each_entry_once_witness :
  is_Some (DependencyGraph.entry_at
             [mkEntry "entry-0" "POST" "https://example.test/login";
              mkEntry "entry-1" "GET" "https://example.test/"] 1).
Proof.
  destruct (select_all_selects_each_entry_once
              [mkEntry "entry-0" "POST" "https://example.test/login";
               mkEntry "entry-1" "GET" "https://example.test/"]
              LoliCodeCustomizer.initial) as (Hmem & Hentry & _).
  apply Hentry. apply Hmem. simpl. lia.
Defined.
